(** * Rapid Rescue: jerk detection, safety-check countdown and escalation

    A shallow embedding of the emergency core of [src/App.tsx]
    (the [App] component), of [services/geminiService.ts]
    ([findNearbyHospitals]) and of the [POST /api/incidents] route of the
    server; then of the forms, the contact list and the admin portal of the
    application, with the routes of the server behind them.

    JavaScript numbers are IEEE 754 binary64 values, modelled by Rocq's
    primitive floats; [Date.now()] readings are integral millisecond counts
    and are modelled by [Z].  A string is a sequence of UTF-16 code units
    below 256, one [ascii] each; text with other code units is outside the
    model.  React state is a record; every handler is a
    function on that record which also returns the observable events it
    produced (timer creation and cancellation, invocation of
    [triggerEmergency], emission of a jerk).

    The interval callback reaches the counter through the updater of
    [setCountdown] and the timer through [timerRef], so it always sees the
    current values.  The motion listener is re-registered by its effect
    only when React commits a render in which [lastJerk] has changed, and
    the buttons of a modal can be pressed only while the modal is
    rendered.  [step] and [run] describe the page when React commits
    before every event; [stepRendered] and [deliver] keep the state of
    the last committed render apart from the state React holds, and let
    events arrive between two commits. *)

From Stdlib Require Import ZArith List String Ascii Bool Lia Floats.
From Stdlib Require Import DecimalString Sorted.
Import ListNotations.

Local Open Scope string_scope.
Local Open Scope list_scope.
Local Open Scope Z_scope.

(** ** JavaScript numbers *)

Module JsNumber.

(** [v || 0] on a number: [NaN], [+0] and [-0] are falsy. *)
Definition falsy (v : float) : bool :=
  (PrimFloat.is_nan v || PrimFloat.is_zero v)%bool.

(** [(c || 0)] where the component [c] may be absent ([null]). *)
Definition or_zero (c : option float) : float :=
  match c with
  | None => 0%float
  | Some v => if falsy v then 0%float else v
  end.

(** [v ** 2]. *)
Definition square (v : float) : float := (v * v)%float.

(** [a > b] on numbers. *)
Definition gt (a b : float) : bool := (b <? a)%float.

End JsNumber.

(** ** Motion events *)

(** [DeviceMotionEventAcceleration]: every component may be [null]. *)
Record Acceleration := mkAcc {
  acc_x : option float;
  acc_y : option float;
  acc_z : option float
}.

Record DeviceMotionEvent := mkMotion {
  accelerationIncludingGravity : option Acceleration
}.

(** [Math.sqrt((acc.x || 0) ** 2 + (acc.y || 0) ** 2 + (acc.z || 0) ** 2)] *)
Definition totalAcc (acc : Acceleration) : float :=
  PrimFloat.sqrt
    (JsNumber.square (JsNumber.or_zero (acc_x acc))
     + JsNumber.square (JsNumber.or_zero (acc_y acc))
     + JsNumber.square (JsNumber.or_zero (acc_z acc)))%float.

(** ** Application state *)

Record Contact := mkContact {
  contact_id : Z;
  contact_name : string;
  contact_phone : string;
  contact_email : string
}.

Record Coords := mkCoords { lat : float; lng : float }.

Record HospitalLink := mkLink {
  link_title : string;
  link_uri : string;
  link_phone : string
}.

(** The [useState] cells of [App] that the emergency core touches, the
    [timerRef] cell, and the browser's table of live [setInterval] handles
    ([intervals]) with the next handle it will hand out.  Handles are
    positive, so a stored handle is always truthy. *)
Record AppState := mkApp {
  userName : string;
  contacts : list Contact;
  isMonitoring : bool;
  showSafetyCheck : bool;
  countdown : Z;
  location : option Coords;
  lastJerk : Z;
  emergencyTriggered : bool;
  timerRef : option positive;
  intervals : list positive;
  nextHandle : positive
}.

(** The values of the [useState] initialisers. *)
Definition initialState : AppState :=
  {| userName := EmptyString;
     contacts := [];
     isMonitoring := false;
     showSafetyCheck := false;
     countdown := 60;
     location := None;
     lastJerk := 0;
     emergencyTriggered := false;
     timerRef := None;
     intervals := [];
     nextHandle := 1%positive |}.

(** Observable events of a handler. *)
Inductive Output :=
| JerkEvent (occurredAt : Z)          (* setLastJerk(Date.now()); triggerSafetyCheck() *)
| LocationRequested                   (* navigator.geolocation.getCurrentPosition(cb) *)
| IntervalStarted (h : positive)      (* setInterval(..., 1000) *)
| IntervalCleared (h : positive)      (* clearInterval(h) *)
| EmergencyInvoked.                   (* triggerEmergency() *)

Definition Step : Type := AppState * list Output.

Definition set_showSafetyCheck (b : bool) (s : AppState) : AppState :=
  {| userName := userName s; contacts := contacts s;
     isMonitoring := isMonitoring s; showSafetyCheck := b;
     countdown := countdown s; location := location s;
     lastJerk := lastJerk s; emergencyTriggered := emergencyTriggered s;
     timerRef := timerRef s; intervals := intervals s;
     nextHandle := nextHandle s |}.

Definition set_countdown (n : Z) (s : AppState) : AppState :=
  {| userName := userName s; contacts := contacts s;
     isMonitoring := isMonitoring s; showSafetyCheck := showSafetyCheck s;
     countdown := n; location := location s;
     lastJerk := lastJerk s; emergencyTriggered := emergencyTriggered s;
     timerRef := timerRef s; intervals := intervals s;
     nextHandle := nextHandle s |}.

Definition set_location (l : option Coords) (s : AppState) : AppState :=
  {| userName := userName s; contacts := contacts s;
     isMonitoring := isMonitoring s; showSafetyCheck := showSafetyCheck s;
     countdown := countdown s; location := l;
     lastJerk := lastJerk s; emergencyTriggered := emergencyTriggered s;
     timerRef := timerRef s; intervals := intervals s;
     nextHandle := nextHandle s |}.

Definition set_lastJerk (t : Z) (s : AppState) : AppState :=
  {| userName := userName s; contacts := contacts s;
     isMonitoring := isMonitoring s; showSafetyCheck := showSafetyCheck s;
     countdown := countdown s; location := location s;
     lastJerk := t; emergencyTriggered := emergencyTriggered s;
     timerRef := timerRef s; intervals := intervals s;
     nextHandle := nextHandle s |}.

Definition set_emergencyTriggered (b : bool) (s : AppState) : AppState :=
  {| userName := userName s; contacts := contacts s;
     isMonitoring := isMonitoring s; showSafetyCheck := showSafetyCheck s;
     countdown := countdown s; location := location s;
     lastJerk := lastJerk s; emergencyTriggered := b;
     timerRef := timerRef s; intervals := intervals s;
     nextHandle := nextHandle s |}.

Definition set_isMonitoring (b : bool) (s : AppState) : AppState :=
  {| userName := userName s; contacts := contacts s;
     isMonitoring := b; showSafetyCheck := showSafetyCheck s;
     countdown := countdown s; location := location s;
     lastJerk := lastJerk s; emergencyTriggered := emergencyTriggered s;
     timerRef := timerRef s; intervals := intervals s;
     nextHandle := nextHandle s |}.

Definition set_userName (n : string) (s : AppState) : AppState :=
  {| userName := n; contacts := contacts s;
     isMonitoring := isMonitoring s; showSafetyCheck := showSafetyCheck s;
     countdown := countdown s; location := location s;
     lastJerk := lastJerk s; emergencyTriggered := emergencyTriggered s;
     timerRef := timerRef s; intervals := intervals s;
     nextHandle := nextHandle s |}.

Definition set_contacts (cs : list Contact) (s : AppState) : AppState :=
  {| userName := userName s; contacts := cs;
     isMonitoring := isMonitoring s; showSafetyCheck := showSafetyCheck s;
     countdown := countdown s; location := location s;
     lastJerk := lastJerk s; emergencyTriggered := emergencyTriggered s;
     timerRef := timerRef s; intervals := intervals s;
     nextHandle := nextHandle s |}.

(** ** Timers *)

(** [clearInterval(h)]: the handle leaves the table of live intervals;
    clearing a handle that is not live does nothing. *)
Definition clearInterval (h : positive) (s : AppState) : AppState :=
  {| userName := userName s; contacts := contacts s;
     isMonitoring := isMonitoring s; showSafetyCheck := showSafetyCheck s;
     countdown := countdown s; location := location s;
     lastJerk := lastJerk s; emergencyTriggered := emergencyTriggered s;
     timerRef := timerRef s;
     intervals := filter (fun h' => negb (Pos.eqb h' h)) (intervals s);
     nextHandle := nextHandle s |}.

(** [timerRef.current = setInterval(cb, 1000)]: a fresh handle becomes live
    and is stored in the ref. *)
Definition setInterval (s : AppState) : AppState :=
  {| userName := userName s; contacts := contacts s;
     isMonitoring := isMonitoring s; showSafetyCheck := showSafetyCheck s;
     countdown := countdown s; location := location s;
     lastJerk := lastJerk s; emergencyTriggered := emergencyTriggered s;
     timerRef := Some (nextHandle s);
     intervals := nextHandle s :: intervals s;
     nextHandle := Pos.succ (nextHandle s) |}.

(** [if (timerRef.current) clearInterval(timerRef.current)] *)
Definition clearTimerRef (s : AppState) : Step :=
  match timerRef s with
  | Some h => (clearInterval h s, [IntervalCleared h])
  | None => (s, [])
  end.

(** ** Handlers *)

(** [triggerEmergency], up to its first [await]:
    [setEmergencyTriggered(true); setShowSafetyCheck(false)].  The
    asynchronous remainder is [EscalationWorkflow] below.  The interval is
    not touched here. *)
Definition triggerEmergency (s : AppState) : Step :=
  (set_showSafetyCheck false (set_emergencyTriggered true s),
   [EmergencyInvoked]).

(** [triggerSafetyCheck] *)
Definition triggerSafetyCheck (s : AppState) : Step :=
  let s1 := set_countdown 60 (set_showSafetyCheck true s) in
  let '(s2, o2) := clearTimerRef s1 in
  let s3 := setInterval s2 in
  (s3, [LocationRequested] ++ o2 ++ [IntervalStarted (nextHandle s2)]).

(** The callback handed to [setInterval]: the updater of [setCountdown]. *)
Definition intervalCallback (s : AppState) : Step :=
  let prev := countdown s in
  if prev <=? 1 then
    let '(s1, o1) :=
      match timerRef s with            (* clearInterval(timerRef.current!) *)
      | Some h => (clearInterval h s, [IntervalCleared h])
      | None => (s, [])
      end in
    let '(s2, o2) := triggerEmergency s1 in
    (set_countdown 0 s2, o1 ++ o2)
  else (set_countdown (prev - 1) s, []).

(** [handleIAmSafe] *)
Definition handleIAmSafe (s : AppState) : Step :=
  clearTimerRef (set_showSafetyCheck false s).

(** [handleMotion], as the effect registers it in a render of the state
    [s] itself, so that the [lastJerk] of its closure is the current one.
    [now1] is the reading of [Date.now()] in the guard, [now2] the reading
    passed to [setLastJerk]. *)
Definition handleMotion (ev : DeviceMotionEvent) (now1 now2 : Z)
                        (s : AppState) : Step :=
  match accelerationIncludingGravity ev with
  | None => (s, [])
  | Some acc =>
    if (JsNumber.gt (totalAcc acc) 25 && (5000 <? now1 - lastJerk s))%bool
    then
      let '(s1, o1) := triggerSafetyCheck (set_lastJerk now2 s) in
      (s1, JerkEvent now2 :: o1)
    else (s, [])
  end.

(** ** The event loop *)

(** What the browser can deliver to the component. *)
Inductive Action :=
| StartProtect                                   (* requestPermissions() granted *)
| Motion (ev : DeviceMotionEvent) (now1 now2 : Z) (* a devicemotion event *)
| SimulateAccident                               (* onClick={triggerSafetyCheck} *)
| Tick (h : positive)                            (* interval h fires *)
| IAmSafe                                        (* onClick={handleIAmSafe} *)
| TriggerNow                                     (* onClick={triggerEmergency} *)
| Dismiss                                        (* setEmergencyTriggered(false) *)
| PositionFix (c : Coords)                       (* the geolocation callback *)
| NameTyped (n : string).                        (* setUserName(e.target.value) *)

Definition isLive (h : positive) (s : AppState) : bool :=
  existsb (Pos.eqb h) (intervals s).

(** One turn of the event loop, React having committed the state [s]
    before the event arrives.  The devicemotion listener exists only while
    [isMonitoring]; an interval fires only while its handle is live; the
    two buttons of the safety-check modal exist only while
    [showSafetyCheck], the dismiss button only while [emergencyTriggered].
    Events that arrive before the commit are the matter of [stepRendered]
    below. *)
Definition step (s : AppState) (a : Action) : Step :=
  match a with
  | StartProtect => (set_isMonitoring true s, [])
  | Motion ev now1 now2 =>
      if isMonitoring s then handleMotion ev now1 now2 s else (s, [])
  | SimulateAccident => triggerSafetyCheck s
  | Tick h => if isLive h s then intervalCallback s else (s, [])
  | IAmSafe => if showSafetyCheck s then handleIAmSafe s else (s, [])
  | TriggerNow => if showSafetyCheck s then triggerEmergency s else (s, [])
  | Dismiss =>
      if emergencyTriggered s then (set_emergencyTriggered false s, [])
      else (s, [])
  | PositionFix c => (set_location (Some c) s, [])
  | NameTyped n => (set_userName n s, [])
  end.

Fixpoint run (s : AppState) (tr : list Action) : Step :=
  match tr with
  | [] => (s, [])
  | a :: tr' =>
      let '(s1, o1) := step s a in
      let '(s2, o2) := run s1 tr' in
      (s2, o1 ++ o2)
  end.

(** Number of invocations of [triggerEmergency] among some outputs. *)
Fixpoint emergencies (o : list Output) : nat :=
  match o with
  | [] => 0%nat
  | EmergencyInvoked :: o' => S (emergencies o')
  | _ :: o' => emergencies o'
  end.

(** The [occurredAt] stamps of the jerks among some outputs, oldest first. *)
Fixpoint jerkTimes (o : list Output) : list Z :=
  match o with
  | [] => []
  | JerkEvent t :: o' => t :: jerkTimes o'
  | _ :: o' => jerkTimes o'
  end.

(** Number of intervals started among some outputs. *)
Fixpoint started (o : list Output) : nat :=
  match o with
  | [] => 0%nat
  | IntervalStarted _ :: o' => S (started o')
  | _ :: o' => started o'
  end.

(** The interval held by [timerRef] comes due once. *)
Definition tickOnce (s : AppState) : Step :=
  match timerRef s with
  | Some h => step s (Tick h)
  | None => (s, [])
  end.

(** ... and [n] times in a row. *)
Fixpoint ticks (n : nat) (s : AppState) : Step :=
  match n with
  | O => (s, [])
  | S n' =>
      let '(s1, o1) := tickOnce s in
      let '(s2, o2) := ticks n' s1 in
      (s2, o1 ++ o2)
  end.

(** At most one interval is live, it is the one [timerRef] holds, and the
    next handle is a new one. *)
Definition timerOk (s : AppState) : Prop :=
  intervals s = [] \/
  exists h, timerRef s = Some h /\ intervals s = [h] /\ (h < nextHandle s)%positive.

(** An action that starts a countdown: a motion sample that passes the
    guard of [handleMotion], or the test button. *)
Definition startsCountdown (s : AppState) (a : Action) : bool :=
  match a with
  | SimulateAccident => true
  | Motion ev now1 _ =>
      match accelerationIncludingGravity ev with
      | Some acc =>
          (isMonitoring s && JsNumber.gt (totalAcc acc) 25
           && (5000 <? now1 - lastJerk s))%bool
      | None => false
      end
  | _ => false
  end.

(** No action of the trace starts a countdown. *)
Fixpoint quiet (s : AppState) (tr : list Action) : bool :=
  match tr with
  | [] => true
  | a :: tr' => (negb (startsCountdown s a) && quiet (fst (step s a)) tr')%bool
  end.

(** ** Numbers in template literals *)

(** [`${v}`] on a number is [Number::toString(v)]: the shortest decimal
    that reads back as [v], laid out by the position of the decimal point.
    A finite non-zero binary64 value is [m * 2^e] ([Prim2SF]); the decimal
    [s * 10^q] reads back as it when it lies between the midpoints to the
    two neighbouring values. *)
Module NumberToString.

(** [c * 2^a] and [s * 10^q] brought to a common denominator. *)
Definition binSide (c a q : Z) : Z := c * 2 ^ Z.max 0 a * 10 ^ Z.max 0 (- q).
Definition decSide (s a q : Z) : Z := s * 10 ^ Z.max 0 q * 2 ^ Z.max 0 (- a).

(** Does the decimal [s * 10^q] round (to nearest, ties to even) to the
    binary64 value [m * 2^e]? *)
Definition roundsTo (m e s q : Z) : bool :=
  let a := e - 2 in
  let lo := if ((m =? 2 ^ 52) && (-1074 <? e))%bool then 4 * m - 1 else 4 * m - 2 in
  let hi := 4 * m + 2 in
  let v := decSide s a q in
  if Z.even m
  then ((binSide lo a q <=? v) && (v <=? binSide hi a q))%bool
  else ((binSide lo a q <? v) && (v <? binSide hi a q))%bool.

(** The [n] with [10^(n-1) <= m * 2^e < 10^n]. *)
Fixpoint magnitude (fuel : nat) (m e n : Z) : Z :=
  match fuel with
  | O => n
  | S fuel' =>
      if decSide 1 e n <=? binSide m e n
      then magnitude fuel' m e (n + 1) else n
  end.

Definition exponent10 (m e : Z) : Z :=
  magnitude 8 m e ((Z.log2 m + e) * 30103 / 100000 - 3).

(** The least [k], with [n] and [s], such that [s * 10^(n-k)] reads back
    as [m * 2^e] and [s] has [k] digits. *)
Fixpoint shortest (fuel : nat) (m e n0 k : Z) : Z * Z * Z :=
  let q := n0 - k in
  let a := e - 2 in
  let x := binSide (4 * m) a q in
  let s1 := x / decSide 1 a q in
  let s2 := s1 + 1 in
  let ok1 := roundsTo m e s1 q in
  let ok2 := roundsTo m e s2 q in
  let d1 := x - decSide s1 a q in
  let d2 := decSide s2 a q - x in
  let pick (s : Z) := if s =? 10 ^ k then (n0 + 1, k, 10 ^ (k - 1)) else (n0, k, s) in
  match fuel with
  | O => pick s1
  | S fuel' =>
      if (ok1 && ok2)%bool then
        if d1 <? d2 then pick s1
        else if d2 <? d1 then pick s2
        else if Z.even s1 then pick s1 else pick s2
      else if ok1 then pick s1
      else if ok2 then pick s2
      else shortest fuel' m e n0 (k + 1)
  end.

Definition digits (s : Z) : string := NilZero.string_of_uint (N.to_uint (Z.to_N s)).

Fixpoint zeros (n : nat) : string :=
  match n with O => EmptyString | S n' => String "0" (zeros n') end.

Definition render (n k s : Z) : string :=
  let ds := digits s in
  if ((k <=? n) && (n <=? 21))%bool then
    ds ++ zeros (Z.to_nat (n - k))
  else if ((0 <? n) && (n <=? 21))%bool then
    substring 0 (Z.to_nat n) ds ++ "." ++ substring (Z.to_nat n) (Z.to_nat (k - n)) ds
  else if ((-6 <? n) && (n <=? 0))%bool then
    "0." ++ zeros (Z.to_nat (- n)) ++ ds
  else
    let ex := n - 1 in
    let sg := if ex <? 0 then "-" else "+" in
    if k =? 1 then ds ++ "e" ++ sg ++ digits (Z.abs ex)
    else substring 0 1 ds ++ "." ++ substring 1 (Z.to_nat (k - 1)) ds
         ++ "e" ++ sg ++ digits (Z.abs ex).

(** [Number::toString(x)] in radix 10: what a template literal prints. *)
Definition toString (x : float) : string :=
  match Prim2SF x with
  | S754_nan => "NaN"
  | S754_zero _ => "0"
  | S754_infinity sg => if sg then "-Infinity" else "Infinity"
  | S754_finite sg m e =>
      let '(n, k, s) := shortest 17 (Zpos m) e (exponent10 (Zpos m) e) 1 in
      (if sg then "-" else EmptyString) ++ render n k s
  end.

End NumberToString.

(** ** Strings *)

Module JsString.

Definition upperChar (c : ascii) : ascii :=
  let n := nat_of_ascii c in
  if ((97 <=? n) && (n <=? 122))%nat then ascii_of_nat (n - 32)
  else if ((224 <=? n) && (n <=? 254) && negb (n =? 247))%nat
       then ascii_of_nat (n - 32)
  else c.

(** [s.toUpperCase()]: the small letters a-z and, above 127, the small
    letters from U+00E0 to U+00FE (the division sign apart) go to their
    capitals, 32 below; every other code unit stays, but for the three of
    [fitsUpper]. *)
Fixpoint toUpperCase (s : string) : string :=
  match s with
  | EmptyString => EmptyString
  | String c s' => String (upperChar c) (toUpperCase s')
  end.

(** The code units whose capital is again one code unit below 256: all but
    the micro sign (181, capital U+039C), the sharp s (223, capital "SS")
    and the y with diaeresis (255, capital U+0178). *)
Definition fitsUpper (c : ascii) : bool :=
  let n := nat_of_ascii c in
  negb ((n =? 181) || (n =? 223) || (n =? 255))%nat.

(** The strings on which [toUpperCase] above is [String.prototype.toUpperCase]. *)
Fixpoint upperFits (s : string) : bool :=
  match s with
  | EmptyString => true
  | String c s' => (fitsUpper c && upperFits s')%bool
  end.

(** [hay.includes(needle)] *)
Fixpoint includes (needle hay : string) : bool :=
  (prefix needle hay ||
   match hay with
   | EmptyString => false
   | String _ hay' => includes needle hay'
   end)%bool.

(** A string is truthy when it is not empty. *)
Definition truthy (s : string) : bool :=
  match s with EmptyString => false | _ => true end.

End JsString.

(** ** Promises *)

(** How an awaited promise settles. *)
Inductive Settled (A : Type) :=
| Fulfilled (a : A)
| Rejected (reason : string).
Arguments Fulfilled {A} a.
Arguments Rejected {A} reason.

(** ** The hospital lookup ([services/geminiService.ts]) *)

Record MapsChunk := mkMaps {
  maps_title : string;
  maps_uri : option string;
  maps_phone : option string
}.

Record GroundingChunk := mkChunk { maps : option MapsChunk }.

Record GroundingMetadata := mkMeta {
  (* an entry [None] is a [null] element of the array *)
  groundingChunks : option (list (option GroundingChunk))
}.

Record Candidate := mkCandidate { groundingMetadata : option GroundingMetadata }.

Record GenerateContentResponse := mkResponse {
  candidates : option (list Candidate);
  text : option string
}.

Record GenerateContentRequest := mkRequest {
  req_model : string;
  req_contents : string;
  req_latitude : float;
  req_longitude : float
}.

Record HospitalResult := mkResult {
  result_text : string;
  result_links : list HospitalLink
}.

Definition lookupRequest (lat lng : float) : GenerateContentRequest :=
  {| req_model := "gemini-2.5-flash";
     req_contents :=
       ("I am in an emergency situation at latitude "
        ++ NumberToString.toString lat ++ " and longitude "
        ++ NumberToString.toString lng
        ++ ". Please identify the 3 nearest hospitals or emergency medical centers. For each, provide their name and their official phone number. I need to request an ambulance.")%string;
     req_latitude := lat;
     req_longitude := lng |}.

(** [response.candidates?.[0]?.groundingMetadata?.groundingChunks || []] *)
Definition chunksOf (r : GenerateContentResponse) : list (option GroundingChunk) :=
  match candidates r with
  | Some (c :: _) =>
      match groundingMetadata c with
      | Some md =>
          match groundingChunks md with
          | Some cs => cs
          | None => []
          end
      | None => []
      end
  | _ => []
  end.

(** [chunks.filter((chunk) => chunk.maps?.uri)]: reading [.maps] of a
    [null] element throws. *)
Fixpoint filterChunks (cs : list (option GroundingChunk))
  : Settled (list MapsChunk) :=
  match cs with
  | [] => Fulfilled []
  | None :: _ => Rejected "TypeError: Cannot read properties of null (reading 'maps')"
  | Some c :: cs' =>
      match filterChunks cs' with
      | Rejected e => Rejected e
      | Fulfilled rest =>
          match maps c with
          | Some m =>
              match maps_uri m with
              | Some u => if JsString.truthy u then Fulfilled (m :: rest)
                          else Fulfilled rest
              | None => Fulfilled rest
              end
          | None => Fulfilled rest
          end
      end
  end.

(** [.map((chunk) => ({ title, uri, phone: chunk.maps.phone || "N/A" }))] *)
Definition toLink (m : MapsChunk) : HospitalLink :=
  {| link_title := maps_title m;
     link_uri := match maps_uri m with Some u => u | None => EmptyString end;
     link_phone :=
       match maps_phone m with
       | Some p => if JsString.truthy p then p else "N/A"
       | None => "N/A"
       end |}.

(** The body of the [try] block, given how [generateContent] settled. *)
Definition lookupBody (settled : Settled GenerateContentResponse)
  : Settled HospitalResult :=
  match settled with
  | Rejected e => Rejected e
  | Fulfilled response =>
      match filterChunks (chunksOf response) with
      | Rejected e => Rejected e
      | Fulfilled ms =>
          Fulfilled
            {| result_text :=
                 match text response with
                 | Some t => if JsString.truthy t then t
                             else "No hospital information found."
                 | None => "No hospital information found."
                 end;
               result_links := map toLink ms |}
      end
  end.

Definition lookupFallback : HospitalResult :=
  {| result_text := "Could not retrieve hospital information due to an error.";
     result_links := [] |}.

(** [findNearbyHospitals]: the [try] block and its [catch].
    [generateContent] stands for [ai.models.generateContent]; it answers
    [None] when its promise never settles, and then neither does the
    lookup's. *)
Definition findNearbyHospitals
    (generateContent : GenerateContentRequest -> option (Settled GenerateContentResponse))
    (lat lng : float) : option (Settled HospitalResult) :=
  match generateContent (lookupRequest lat lng) with
  | None => None
  | Some settled =>
      match lookupBody settled with
      | Fulfilled r => Some (Fulfilled r)
      | Rejected _ => Some (Fulfilled lookupFallback)
      end
  end.

(** ** The escalation workflow: [triggerEmergency] after its first lines *)

Record SmsPayload := mkSms { sms_to : string; sms_message : string }.

Record AmbulancePayload := mkAmbulance {
  amb_hospital : string;
  amb_phone : string;
  amb_message : string
}.

(** The JSON body of the [POST /api/incidents] request. *)
Record IncidentBody := mkBody {
  body_lat : float;
  body_lng : float;
  body_details : string
}.

Inductive Effect :=
| SetLocation (c : Coords)
| SetHospitalInfo (t : string)
| SetHospitalLinks (ls : list HospitalLink)
| LogSms (ps : list SmsPayload)             (* console.log("SENDING SMS TO CONTACTS:", ...) *)
| LogAmbulance (ps : list AmbulancePayload) (* console.log("ALERTING HOSPITALS FOR AMBULANCE:", ...) *)
| PostIncident (b : IncidentBody).          (* fetch('/api/incidents', { method: 'POST', ... }) *)

(** What the workflow awaits, [None] standing for a promise that never
    settles: the one-shot position fetch (which has no error callback), the
    model behind the hospital lookup, and the [fetch] that posts the
    incident, fulfilled with [res.ok] or rejected when the request fails. *)
Record Env := mkEnv {
  currentPosition : option Coords;
  generateContent : GenerateContentRequest -> option (Settled GenerateContentResponse);
  fetchIncidents : IncidentBody -> option (Settled bool)
}.

Inductive Outcome :=
| Completed       (* the async function ran to its end *)
| Stalled         (* an awaited promise never settles *)
| Threw (reason : string).

Definition locationLink (lat lng : float) : string :=
  ("https://www.google.com/maps?q=" ++ NumberToString.toString lat ++ ","
   ++ NumberToString.toString lng)%string.

Definition emergencyMessage (name : string) (lat lng : float) : string :=
  (JsString.toUpperCase name ++ " IS IN EMERGENCY. Location: "
   ++ locationLink lat lng)%string.

Definition ambulanceMessage (name : string) (lat lng : float) : string :=
  ("EMERGENCY: Accident detected at " ++ locationLink lat lng
   ++ ". Ambulance requested for " ++ name ++ ".")%string.

Definition incidentDetails (name : string) (lat lng : float) (hospitals : string)
  : string :=
  ("Emergency triggered for " ++ name ++ ". " ++ emergencyMessage name lat lng
   ++ ". Nearby hospitals: " ++ hospitals)%string.

(** How the last [await] of [triggerEmergency] ends it.  The answer of the
    server is not looked at; a rejected [fetch] is not caught. *)
Definition afterFetch (answer : option (Settled bool)) : Outcome :=
  match answer with
  | None => Stalled
  | Some (Rejected reason) => Threw reason
  | Some (Fulfilled _) => Completed
  end.

(** The part of [triggerEmergency] that starts at [let lat = 0, lng = 0],
    for the [userName], [contacts] and [location] its closure holds: what
    it has done when it stops, and how it stops. *)
Definition EscalationWorkflow (name : string) (cs : list Contact)
    (loc : option Coords) (env : Env) : list Effect * Outcome :=
  let resolved :=
    match loc with
    | Some c => Some (c, [])
    | None =>
        match currentPosition env with
        | Some c => Some (c, [SetLocation c])
        | None => None
        end
    end in
  match resolved with
  | None => ([], Stalled)
  | Some (c, e0) =>
      match findNearbyHospitals (generateContent env) (lat c) (lng c) with
      | None => (e0, Stalled)
      | Some (Rejected r) => (e0, Threw r)
      | Some (Fulfilled result) =>
          let body :=
            {| body_lat := lat c;
               body_lng := lng c;
               body_details :=
                 incidentDetails name (lat c) (lng c) (result_text result) |} in
          (e0 ++
           [ SetHospitalInfo (result_text result);
             SetHospitalLinks (result_links result);
             LogSms (map (fun ct =>
                       {| sms_to := contact_phone ct;
                          sms_message := emergencyMessage name (lat c) (lng c) |})
                     cs);
             LogAmbulance (map (fun h =>
                       {| amb_hospital := link_title h;
                          amb_phone := link_phone h;
                          amb_message := ambulanceMessage name (lat c) (lng c) |})
                     (result_links result));
             PostIncident body ],
           afterFetch (fetchIncidents env body))
      end
  end.

(** ** The incident store ([POST /api/incidents]) *)

(** A row of the table; a coordinate is [NULL] when the body held [null]. *)
Record IncidentRow := mkRow {
  row_id : Z;
  row_location_lat : option float;
  row_location_lng : option float;
  row_status : string;
  row_details : string
}.

(** A number written by [JSON.stringify] and read back by [express.json()]:
    [NaN] and the infinities are written [null], [-0] is written [0], and
    every other number reads back as itself. *)
Definition jsonNumber (v : float) : option float :=
  if (PrimFloat.is_nan v || PrimFloat.is_infinity v)%bool then None
  else if PrimFloat.is_zero v then Some 0%float
  else Some v.

(** [INSERT INTO incidents (location_lat, location_lng, details, status)
    VALUES (?, ?, ?, ?)] with [lat, lng, details, "PENDING"] as they come
    out of the JSON body; the id is the [AUTOINCREMENT] key. *)
Definition postIncidents (b : IncidentBody) (db : list IncidentRow)
  : list IncidentRow :=
  db ++ [ {| row_id := 1 + fold_right (fun r acc => Z.max (row_id r) acc) 0 db;
             row_location_lat := jsonNumber (body_lat b);
             row_location_lng := jsonNumber (body_lng b);
             row_status := "PENDING";
             row_details := body_details b |} ].

(** The bodies posted by a run of the workflow, in order. *)
Fixpoint posted (es : list Effect) : list IncidentBody :=
  match es with
  | [] => []
  | PostIncident b :: es' => b :: posted es'
  | _ :: es' => posted es'
  end.

(** The SMS payloads logged by a run of the workflow, in order. *)
Fixpoint smsSent (es : list Effect) : list SmsPayload :=
  match es with
  | [] => []
  | LogSms ps :: es' => ps ++ smsSent es'
  | _ :: es' => smsSent es'
  end.

(** The ambulance payloads logged by a run of the workflow, in order. *)
Fixpoint ambulancesRequested (es : list Effect) : list AmbulancePayload :=
  match es with
  | [] => []
  | LogAmbulance ps :: es' => ps ++ ambulancesRequested es'
  | _ :: es' => ambulancesRequested es'
  end.

(** The table once the server has handled, in turn, the bodies a run
    posted, each request having reached it. *)
Definition store (es : list Effect) (db : list IncidentRow) : list IncidentRow :=
  fold_left (fun d b => postIncidents b d) (posted es) db.

(** ** Vocabulary of the properties *)

(** The guard of [handleMotion], as a proposition. *)
Definition jerkCondition (s : AppState) (ev : DeviceMotionEvent) (now1 : Z) : Prop :=
  exists acc, accelerationIncludingGravity ev = Some acc /\
              JsNumber.gt (totalAcc acc) 25 = true /\
              5000 < now1 - lastJerk s.

(** The number written [25.0001] in JavaScript: the binary64 value nearest
    to it. *)
Definition justAboveThreshold : float := 0x1.900068db8bac7p+4%float.

(** Within one call of [handleMotion] the clock does not run backwards:
    the reading stored in [lastJerk] is not earlier than the one tested. *)
Definition clockOk (a : Action) : bool :=
  match a with
  | Motion _ now1 now2 => now1 <=? now2
  | _ => true
  end.

(** The samples used in the examples: a violent shake and a device at
    rest. *)
Definition shake : DeviceMotionEvent :=
  mkMotion (Some (mkAcc (Some 30%float) (Some 0%float) (Some 0%float))).

Definition atRest : DeviceMotionEvent :=
  mkMotion (Some (mkAcc (Some 0%float) (Some 9.8125%float) (Some 0%float))).

(** Consecutive stamps are more than 5000 ms apart, starting after [t0]. *)
Fixpoint spacedFrom (t0 : Z) (ts : list Z) : Prop :=
  match ts with
  | [] => True
  | t :: ts' => 5000 < t - t0 /\ spacedFrom t ts'
  end.

(** The countdown is running on interval [h] and shows [c] seconds. *)
Definition counting (h : positive) (c : Z) (s : AppState) : Prop :=
  showSafetyCheck s = true /\ timerRef s = Some h /\
  intervals s = [h] /\ countdown s = c.

(** No countdown is shown and no interval is live. *)
Definition idle (s : AppState) : Prop :=
  showSafetyCheck s = false /\ intervals s = [].

(** The end-to-end scenario: the numbers written [12.9] and [77.6] in
    JavaScript, the contact Asha, and a reply of the model from which the
    lookup returns the text "3 hospitals found" and one link. *)
Definition lat_12_9 : float := 0x1.9cccccccccccdp+3%float.
Definition lng_77_6 : float := 0x1.3666666666666p+6%float.

Definition asha : Contact :=
  {| contact_id := 1; contact_name := "Asha";
     contact_phone := "9999999999"; contact_email := "asha@example.org" |}.

Definition cityHospitalReply : GenerateContentResponse :=
  {| candidates :=
       Some [ {| groundingMetadata :=
                   Some {| groundingChunks :=
                     Some [ Some {| maps :=
                       Some {| maps_title := "City Hospital";
                               maps_uri := Some "...";
                               maps_phone := Some "123" |} |} ] |} |} ];
     text := Some "3 hospitals found" |}.

Definition cityHospitalResult : HospitalResult :=
  {| result_text := "3 hospitals found";
     result_links :=
       [ {| link_title := "City Hospital"; link_uri := "...";
            link_phone := "123" |} ] |}.

(** ** Measures on the state *)

(** What can still call [triggerEmergency]: the open safety check (through
    its "TRIGGER NOW" button) and every live interval. *)
Definition armed (s : AppState) : nat :=
  ((if showSafetyCheck s then 1 else 0) + List.length (intervals s))%nat.

Definition isTriggerNow (a : Action) : bool :=
  match a with TriggerNow => true | _ => false end.

Definition isStartProtect (a : Action) : bool :=
  match a with StartProtect => true | _ => false end.

(** The coordinates the workflow ends up with: the location its closure
    holds, else the one-shot position. *)
Definition resolvedLocation (loc : option Coords) (env : Env) : option Coords :=
  match loc with
  | Some c => Some c
  | None => currentPosition env
  end.

Definition isSetLocation (e : Effect) : bool :=
  match e with SetLocation _ => true | _ => false end.

Definition isNullChunk (c : option GroundingChunk) : bool :=
  match c with None => true | Some _ => false end.

(** ** The regular expressions of the forms *)

(** The two patterns the forms test have the shape [/^[...]+$/]: one or more
    characters of a class, and nothing else. *)
Module JsRegExp.

Inductive ClassItem :=
| Range (lo hi : ascii)   (* a-z *)
| Whitespace              (* \s *)
| Digit.                  (* \d *)

(** [\s], and what [trim] strips, among the code units below 256: tab, line
    feed, vertical tab, form feed, carriage return, space and the no-break
    space. *)
Definition isWhitespace (c : ascii) : bool :=
  let n := nat_of_ascii c in
  (((9 <=? n) && (n <=? 13)) || (n =? 32) || (n =? 160))%nat.

Definition isDigit (c : ascii) : bool :=
  let n := nat_of_ascii c in ((48 <=? n) && (n <=? 57))%nat.

Definition inItem (c : ascii) (it : ClassItem) : bool :=
  match it with
  | Range lo hi =>
      ((nat_of_ascii lo <=? nat_of_ascii c) && (nat_of_ascii c <=? nat_of_ascii hi))%nat
  | Whitespace => isWhitespace c
  | Digit => isDigit c
  end.

Definition inClass (cls : list ClassItem) (c : ascii) : bool :=
  existsb (inItem c) cls.

Fixpoint all (p : ascii -> bool) (s : string) : bool :=
  match s with
  | EmptyString => true
  | String c s' => (p c && all p s')%bool
  end.

(** [/^[cls]+$/.test(s)] *)
Definition testClassPlus (cls : list ClassItem) (s : string) : bool :=
  match s with
  | EmptyString => false
  | _ => all (inClass cls) s
  end.

End JsRegExp.

(** [/^[a-zA-Z\s]+$/] *)
Definition nameRegExp : list JsRegExp.ClassItem :=
  [JsRegExp.Range "a" "z"; JsRegExp.Range "A" "Z"; JsRegExp.Whitespace].

(** [/^\d+$/] *)
Definition phoneRegExp : list JsRegExp.ClassItem := [JsRegExp.Digit].

(** [s.trimStart()], [s.trimEnd()] and [s.trim()] *)
Fixpoint trimStart (s : string) : string :=
  match s with
  | EmptyString => EmptyString
  | String c s' => if JsRegExp.isWhitespace c then trimStart s' else s
  end.

Fixpoint trimEnd (s : string) : string :=
  match s with
  | EmptyString => EmptyString
  | String c s' =>
      match trimEnd s' with
      | EmptyString => if JsRegExp.isWhitespace c then EmptyString
                       else String c EmptyString
      | t => String c t
      end
  end.

Definition trim (s : string) : string := trimEnd (trimStart s).

(** ** The contact list ([/api/contacts]) *)

(** The [contacts] table and the counter SQLite keeps for its
    [AUTOINCREMENT] key: the largest id ever handed out. *)
Record ContactsTable := mkTable {
  table_rows : list Contact;
  table_seq : Z
}.

Definition emptyContacts : ContactsTable := {| table_rows := []; table_seq := 0 |}.

(** The key of the next row: one more than the largest id that ever
    existed in the table. *)
Definition nextContactId (t : ContactsTable) : Z :=
  1 + Z.max (table_seq t)
            (fold_right (fun r acc => Z.max (contact_id r) acc) 0 (table_rows t)).

(** [POST /api/contacts]: [INSERT INTO contacts (name, phone, email)]. *)
Definition postContacts (name phone email : string) (t : ContactsTable)
  : ContactsTable :=
  {| table_rows :=
       table_rows t ++
       [ {| contact_id := nextContactId t; contact_name := name;
            contact_phone := phone; contact_email := email |} ];
     table_seq := nextContactId t |}.

(** [DELETE /api/contacts/:id]: [DELETE FROM contacts WHERE id = ?].  The
    path segment is the decimal print of the id. *)
Definition deleteContacts (id : Z) (t : ContactsTable) : ContactsTable :=
  {| table_rows := filter (fun r => negb (contact_id r =? id)) (table_rows t);
     table_seq := table_seq t |}.

(** [GET /api/contacts]: [SELECT * FROM contacts]. *)
Definition getContacts (t : ContactsTable) : list Contact := table_rows t.

(** [fetchContacts] *)
Definition fetchContacts (t : ContactsTable) (s : AppState) : AppState :=
  set_contacts (getContacts t) s.

Inductive FormResult :=
| Alerted (message : string)   (* alert(...); return *)
| Submitted.

(** [addContact], for the three fields of the form. *)
Definition addContact (name phone email : string)
    (st : AppState * ContactsTable) : AppState * ContactsTable * FormResult :=
  let '(s, t) := st in
  if negb (JsRegExp.testClassPlus nameRegExp name) then
    (s, t, Alerted "Contact name must contain only letters.")
  else if negb (JsRegExp.testClassPlus phoneRegExp phone) then
    (s, t, Alerted "Phone number must contain only digits.")
  else
    let t' := postContacts name phone email t in
    (fetchContacts t' s, t', Submitted).

(** [deleteContact] *)
Definition deleteContact (id : Z) (st : AppState * ContactsTable)
  : AppState * ContactsTable :=
  let '(s, t) := st in
  let t' := deleteContacts id t in
  (fetchContacts t' s, t').

(** What a user does on the contacts screen. *)
Inductive ContactOp :=
| AddContact (name phone email : string)
| DeleteContact (id : Z).

Definition contactStep (st : AppState * ContactsTable) (op : ContactOp)
  : AppState * ContactsTable :=
  match op with
  | AddContact name phone email => fst (addContact name phone email st)
  | DeleteContact id => deleteContact id st
  end.

Definition contactRun (ops : list ContactOp) (st : AppState * ContactsTable)
  : AppState * ContactsTable :=
  fold_left contactStep ops st.

(** The name Zoe written with its diaeresis (U+00EB), and in capitals
    (U+00CB). *)
Definition zoe : string :=
  String "Z" (String "o" (String (ascii_of_nat 235) EmptyString)).

Definition zoeUpper : string :=
  String "Z" (String "O" (String (ascii_of_nat 203) EmptyString)).

(** The no-break space, U+00A0. *)
Definition nbsp : ascii := ascii_of_nat 160.

(** Letters of the ASCII alphabet. *)
Definition isLetter (c : ascii) : bool :=
  let n := nat_of_ascii c in
  (((97 <=? n) && (n <=? 122)) || ((65 <=? n) && (n <=? 90)))%nat.

(** ** Screens *)

Inductive View :=
| landing | user_login | contacts_view | main | admin | login | enroll_fingerprint.

(** The [onSubmit] of the "Identify Yourself" form. *)
Definition submitUserName (name : string) (cs : list Contact) (v : View)
  : View * option string :=
  if negb (JsRegExp.testClassPlus nameRegExp name) then
    (v, Some "Please enter a valid name (letters only).")
  else if JsString.truthy (trim name) then
    (match cs with [] => contacts_view | _ => main end, None)
  else (v, None).

(** Ids grow along the table and none exceeds the counter. *)
Definition tableOk (t : ContactsTable) : Prop :=
  StronglySorted Z.lt (map contact_id (table_rows t))
  /\ Forall (fun r => contact_id r <= table_seq t) (table_rows t).

(** White space and digits by the numbers of their code units: U+0009 to
    U+000D, the space and the no-break space; 0 to 9. *)
Definition blank (c : ascii) : Prop :=
  let n := nat_of_ascii c in
  ((9 <= n /\ n <= 13) \/ n = 32 \/ n = 160)%nat.


(** A non-empty string of letters and white space, and a non-empty string
    of digits. *)
Definition properName (s : string) : Prop :=
  s <> EmptyString
  /\ forall c, In c (list_ascii_of_string s) -> isLetter c = true \/ blank c.



(** ** The admins ([/api/admin/login], [enroll-fingerprint], [verify-fingerprint]) *)

Record AdminRow := mkAdmin {
  admin_id : Z;
  admin_username : string;
  admin_password : string;                 (* the bcrypt hash *)
  admin_fingerprint_id : option string     (* NULL until enrolled *)
}.

(** What [jwt.sign] signs: [{ id, username }], expiring in [expiresIn]. *)
Record Token := mkToken {
  token_id : Z;
  token_username : string;
  token_expiresIn : string
}.

Inductive LoginResponse :=
| LoginOk (token : Token) (hasFingerprint : bool)   (* res.json({ token, hasFingerprint }) *)
| LoginUnauthorized.                                (* 401 "Invalid credentials" *)

Inductive VerifyResponse :=
| VerifyOk (token : Token)                          (* res.json({ token }) *)
| VerifyUnauthorized.                               (* 401 "Wrong fingerprint" *)

(** [SELECT * FROM admins WHERE username = ?], first row. *)
Definition findAdmin (username : string) (db : list AdminRow) : option AdminRow :=
  find (fun a => String.eqb (admin_username a) username) db.

Definition seededUsername : string := "Vigneshwaran v".
Definition seededPassword : string := "VICKY2007".

Definition set_password (h : string) (a : AdminRow) : AdminRow :=
  {| admin_id := admin_id a; admin_username := admin_username a;
     admin_password := h; admin_fingerprint_id := admin_fingerprint_id a |}.

Definition set_fingerprint (f : string) (a : AdminRow) : AdminRow :=
  {| admin_id := admin_id a; admin_username := admin_username a;
     admin_password := admin_password a; admin_fingerprint_id := Some f |}.

Definition tokenFor (a : AdminRow) : Token :=
  {| token_id := admin_id a; token_username := admin_username a;
     token_expiresIn := "1h" |}.

Section Bcrypt.

(** [bcrypt.hashSync(password, rounds)], for the salt it draws, and
    [bcrypt.compareSync(password, hash)]. *)
Variable hashSync : string -> string -> nat -> string.
Variable compareSync : string -> string -> bool.

(** [seedAdmin], which runs when the server starts. *)
Definition seedAdmin (salt : string) (db : list AdminRow) : list AdminRow :=
  match findAdmin seededUsername db with
  | None =>
      db ++ [ {| admin_id := 1 + fold_right (fun a acc => Z.max (admin_id a) acc) 0 db;
                 admin_username := seededUsername;
                 admin_password := hashSync salt seededPassword 10;
                 admin_fingerprint_id := None |} ]
  | Some _ =>
      map (fun a => if String.eqb (admin_username a) seededUsername
                    then set_password (hashSync salt seededPassword 10) a
                    else a) db
  end.

(** [POST /api/admin/login] *)
Definition adminLogin (db : list AdminRow) (username password : string)
  : LoginResponse :=
  match findAdmin username db with
  | Some a =>
      if compareSync password (admin_password a)
      then LoginOk (tokenFor a)
             (match admin_fingerprint_id a with
              | Some f => JsString.truthy f
              | None => false
              end)
      else LoginUnauthorized
  | None => LoginUnauthorized
  end.

End Bcrypt.

(** [POST /api/admin/enroll-fingerprint]: [UPDATE admins SET fingerprint_id
    = ? WHERE username = ?]; the answer is always [{ success: true }]. *)
Definition enrollFingerprint (db : list AdminRow) (username fingerprintId : string)
  : list AdminRow :=
  map (fun a => if String.eqb (admin_username a) username
                then set_fingerprint fingerprintId a else a) db.

(** A field of a JSON request body, as [req.body] holds it. *)
Inductive JsonField :=
| FieldAbsent                  (* undefined *)
| FieldNull                    (* null *)
| FieldString (s : string)
| FieldOther.                  (* a number, a boolean, an array or an object *)

(** [POST /api/admin/verify-fingerprint]: the test is
    [admin.fingerprint_id === fingerprintId] on the field as it came, and
    the [NULL] of the table reads [null]. *)
Definition verifyFingerprint (db : list AdminRow) (username : string)
    (fingerprintId : JsonField) : VerifyResponse :=
  match findAdmin username db with
  | Some a =>
      match admin_fingerprint_id a, fingerprintId with
      | Some f, FieldString g =>
          if String.eqb f g then VerifyOk (tokenFor a) else VerifyUnauthorized
      | None, FieldNull => VerifyOk (tokenFor a)
      | _, _ => VerifyUnauthorized
      end
  | None => VerifyUnauthorized
  end.

(** ** The admin portal of the application *)

Inductive AdminStep := Step1 | Step2 | StepBiometric | StepFaceId.

Inductive BiometricType := Fingerprint | FaceId.

(** A [setTimeout(..., 2500)] callback that has not run yet, with the
    [adminUsername] its closure holds. *)
Inductive Scan :=
| LoginScan (username : string)    (* of handleBiometricLogin *)
| EnrollScan (username : string).  (* of enrollBiometric *)

Record AdminState := mkAdminState {
  view : View;
  isAdminAuthenticated : bool;
  adminStep : AdminStep;
  hasEnrolledFingerprint : bool;
  adminUsername : string;
  securityCode : string;
  scans : list Scan
}.

Definition initialAdmin : AdminState :=
  {| view := landing; isAdminAuthenticated := false; adminStep := Step1;
     hasEnrolledFingerprint := false; adminUsername := EmptyString;
     securityCode := EmptyString; scans := [] |}.

Definition set_view (v : View) (s : AdminState) : AdminState :=
  {| view := v; isAdminAuthenticated := isAdminAuthenticated s;
     adminStep := adminStep s; hasEnrolledFingerprint := hasEnrolledFingerprint s;
     adminUsername := adminUsername s; securityCode := securityCode s;
     scans := scans s |}.

Definition set_isAdminAuthenticated (b : bool) (s : AdminState) : AdminState :=
  {| view := view s; isAdminAuthenticated := b;
     adminStep := adminStep s; hasEnrolledFingerprint := hasEnrolledFingerprint s;
     adminUsername := adminUsername s; securityCode := securityCode s;
     scans := scans s |}.

Definition set_adminStep (a : AdminStep) (s : AdminState) : AdminState :=
  {| view := view s; isAdminAuthenticated := isAdminAuthenticated s;
     adminStep := a; hasEnrolledFingerprint := hasEnrolledFingerprint s;
     adminUsername := adminUsername s; securityCode := securityCode s;
     scans := scans s |}.

Definition set_hasEnrolledFingerprint (b : bool) (s : AdminState) : AdminState :=
  {| view := view s; isAdminAuthenticated := isAdminAuthenticated s;
     adminStep := adminStep s; hasEnrolledFingerprint := b;
     adminUsername := adminUsername s; securityCode := securityCode s;
     scans := scans s |}.

Definition set_adminUsername (u : string) (s : AdminState) : AdminState :=
  {| view := view s; isAdminAuthenticated := isAdminAuthenticated s;
     adminStep := adminStep s; hasEnrolledFingerprint := hasEnrolledFingerprint s;
     adminUsername := u; securityCode := securityCode s;
     scans := scans s |}.

Definition set_securityCode (c : string) (s : AdminState) : AdminState :=
  {| view := view s; isAdminAuthenticated := isAdminAuthenticated s;
     adminStep := adminStep s; hasEnrolledFingerprint := hasEnrolledFingerprint s;
     adminUsername := adminUsername s; securityCode := c;
     scans := scans s |}.

Definition set_scans (l : list Scan) (s : AdminState) : AdminState :=
  {| view := view s; isAdminAuthenticated := isAdminAuthenticated s;
     adminStep := adminStep s; hasEnrolledFingerprint := hasEnrolledFingerprint s;
     adminUsername := adminUsername s; securityCode := securityCode s;
     scans := l |}.

(** The id both biometric handlers send. *)
Definition biometricId : string := "valid-biometric-123".

Definition scanStep (t : BiometricType) : AdminStep :=
  match t with Fingerprint => StepBiometric | FaceId => StepFaceId end.

(** [handleAdminLogin], with the answer of the server. *)
Definition handleAdminLogin (username : string) (res : LoginResponse)
    (s : AdminState) : AdminState :=
  match res with
  | LoginOk _ hasFingerprint =>
      set_adminStep Step2
        (set_hasEnrolledFingerprint hasFingerprint (set_adminUsername username s))
  | LoginUnauthorized => s       (* alert("Invalid credentials") *)
  end.

(** [verifySecurityCode] *)
Definition verifySecurityCode (s : AdminState) : AdminState :=
  if String.eqb (securityCode s) "1249" then
    if negb (hasEnrolledFingerprint s) then set_view enroll_fingerprint s
    else set_view admin (set_isAdminAuthenticated true s)
  else s.                        (* alert("Invalid security code. Access denied.") *)

(** [handleBiometricLogin], up to the [setTimeout]. *)
Definition handleBiometricLogin (t : BiometricType) (s : AdminState) : AdminState :=
  match t, hasEnrolledFingerprint s with
  | Fingerprint, false => s      (* alert("No fingerprint enrolled. ...") *)
  | _, _ =>
      set_scans
        (scans s ++
         [LoginScan (if JsString.truthy (adminUsername s) then adminUsername s
                     else seededUsername)])
        (set_adminStep (scanStep t) s)
  end.

(** [enrollBiometric], up to the [setTimeout]. *)
Definition enrollBiometric (t : BiometricType) (s : AdminState) : AdminState :=
  set_scans (scans s ++ [EnrollScan (adminUsername s)])
            (set_adminStep (scanStep t) s).

(** The callback of a scan, 2.5 s later; [ok] is [res.ok] of the request it
    makes. *)
Definition scanCallback (sc : Scan) (ok : bool) (s : AdminState) : AdminState :=
  match sc with
  | LoginScan _ =>
      if ok then
        set_adminStep Step1 (set_view admin (set_isAdminAuthenticated true s))
      else set_adminStep Step1 s   (* alert("Wrong ... Access denied.") *)
  | EnrollScan _ =>
      set_adminStep Step1
        (set_view admin
           (set_isAdminAuthenticated true (set_hasEnrolledFingerprint true s)))
  end.

Definition isUserView (v : View) : bool :=
  match v with
  | landing | user_login | contacts_view | main => true
  | _ => false
  end.

Definition isScanning (a : AdminStep) : bool :=
  match a with StepBiometric | StepFaceId => true | _ => false end.

Inductive AdminAction :=
| NavLogo                                   (* setView('landing') *)
| NavLock                                   (* setView(isAdminAuthenticated ? 'admin' : 'login') *)
| UserFlow (target : View)                  (* a setView of the user's screens *)
| SubmitLogin (username : string) (res : LoginResponse)
| CancelLogin                               (* CANCEL *)
| TypeCode (code : string)                  (* setSecurityCode(e.target.value) *)
| Authorize                                 (* AUTHORIZE ACCESS *)
| Back                                      (* BACK *)
| BiometricLogin (t : BiometricType)
| CancelScan                                (* Cancel, while scanning *)
| Enroll (t : BiometricType)
| Skip                                      (* SKIP FOR NOW *)
| ScanFires (ok : bool)                     (* the oldest pending timeout runs *)
| Logout.

(** One turn of the event loop for the portal.  A button acts only on the
    screen and step that render it; the two biometric buttons of the login
    form are taken to be rendered ([isBiometricSupported]). *)
Definition adminStepFn (s : AdminState) (a : AdminAction) : AdminState :=
  match a with
  | NavLogo => set_view landing s
  | NavLock => set_view (if isAdminAuthenticated s then admin else login) s
  | UserFlow target => if isUserView target then set_view target s else s
  | SubmitLogin username res =>
      match view s, adminStep s with
      | login, Step1 => handleAdminLogin username res s
      | _, _ => s
      end
  | CancelLogin =>
      match view s, adminStep s with
      | login, Step1 => set_view landing s
      | _, _ => s
      end
  | TypeCode code =>
      match view s, adminStep s with
      | login, Step2 => set_securityCode code s
      | _, _ => s
      end
  | Authorize =>
      match view s, adminStep s with
      | login, Step2 => verifySecurityCode s
      | _, _ => s
      end
  | Back =>
      match view s, adminStep s with
      | login, Step2 => set_adminStep Step1 s
      | _, _ => s
      end
  | BiometricLogin t =>
      match view s, adminStep s with
      | login, Step1 => handleBiometricLogin t s
      | _, _ => s
      end
  | CancelScan =>
      match view s with
      | login => if isScanning (adminStep s) then set_adminStep Step1 s else s
      | _ => s
      end
  | Enroll t =>
      match view s with
      | enroll_fingerprint =>
          if isScanning (adminStep s) then s else enrollBiometric t s
      | _ => s
      end
  | Skip =>
      match view s with
      | enroll_fingerprint =>
          if isScanning (adminStep s) then s
          else set_view admin (set_isAdminAuthenticated true s)
      | _ => s
      end
  | ScanFires ok =>
      match scans s with
      | sc :: rest => scanCallback sc ok (set_scans rest s)
      | [] => s
      end
  | Logout =>
      match view s with
      | admin => set_view landing (set_isAdminAuthenticated false s)
      | _ => s
      end
  end.

Definition adminRun (s : AdminState) (tr : list AdminAction) : AdminState :=
  fold_left adminStepFn tr s.

(** An answer of the server that lets somebody in. *)
Definition serverSaysYes (s : AdminState) (a : AdminAction) : bool :=
  match a with
  | SubmitLogin _ (LoginOk _ _) => true
  | ScanFires true => match scans s with LoginScan _ :: _ => true | _ => false end
  | _ => false
  end.

(** The server never says yes along the trace. *)
Fixpoint unanswered (s : AdminState) (tr : list AdminAction) : bool :=
  match tr with
  | [] => true
  | a :: tr' => (negb (serverSaysYes s a) && unanswered (adminStepFn s a) tr')%bool
  end.

(** Whether the request a scan makes is answered with [res.ok], on a server
    with the admins [db]. *)
Definition scanAnswer (db : list AdminRow) (sc : Scan) : bool :=
  match sc with
  | LoginScan username =>
      match verifyFingerprint db username (FieldString biometricId) with
      | VerifyOk _ => true
      | VerifyUnauthorized => false
      end
  | EnrollScan _ => true
  end.

Definition isLoginScan (sc : Scan) : bool :=
  match sc with LoginScan _ => true | EnrollScan _ => false end.

(** The state of the portal while nobody has been let in. *)
Definition lockedOut (s : AdminState) : Prop :=
  isAdminAuthenticated s = false /\ adminStep s <> Step2
  /\ view s <> admin /\ view s <> enroll_fingerprint
  /\ forallb isLoginScan (scans s) = true.

(** A stand-in for bcrypt in the examples: the hash is the salt, a dollar
    sign and the password; a password matches a hash that contains it. *)
Definition toyHash (salt password : string) (rounds : nat) : string :=
  (salt ++ "$" ++ password)%string.
Definition toyCompare (password hash : string) : bool :=
  JsString.includes password hash.

(** ** The stand-in for Google sign-in ([/auth/google/login]) *)

(** [s.split(sep)[0]]: the text before the first [sep], or all of [s]. *)
Fixpoint splitFirst (sep : ascii) (s : string) : string :=
  match s with
  | EmptyString => EmptyString
  | String c s' => if Ascii.eqb c sep then EmptyString else String c (splitFirst sep s')
  end.

(** [handleLogin] of the page: the name it posts to the opener, if any. *)
Definition mockGoogleLogin (email password : string) : option string :=
  if (JsString.includes "@gmail.com" email && (6 <=? String.length password)%nat)%bool
  then Some (splitFirst "@" email)
  else None.                       (* alert('Invalid email or password. ...') *)

(** The [message] listener of [handleGoogleLogin]: [setUserName] and the
    next screen. *)
Definition googleAuthSuccess (name : string) (s : AppState) (v : View)
  : AppState * View :=
  (set_userName name s,
   match contacts s with [] => contacts_view | _ => main end).
(** ** The motion listener between two renders *)

(** The [handleMotion] that the effect registered in a render where
    [lastJerk] was [seen]: the guard reads the [lastJerk] of that render,
    the setters act on the state React holds now. *)
Definition handleMotionClosure (seen : Z) (ev : DeviceMotionEvent)
    (now1 now2 : Z) (s : AppState) : Step :=
  match accelerationIncludingGravity ev with
  | None => (s, [])
  | Some acc =>
    if (JsNumber.gt (totalAcc acc) 25 && (5000 <? now1 - seen))%bool
    then
      let '(s1, o1) := triggerSafetyCheck (set_lastJerk now2 s) in
      (s1, JerkEvent now2 :: o1)
    else (s, [])
  end.

(** One turn of the event loop when the last committed render showed the
    state [r] and React now holds [s]: the listener and the buttons are
    those of [r], the setters and the interval table are those of [s]. *)
Definition stepRendered (r s : AppState) (a : Action) : Step :=
  match a with
  | StartProtect => (set_isMonitoring true s, [])
  | Motion ev now1 now2 =>
      if isMonitoring r then handleMotionClosure (lastJerk r) ev now1 now2 s
      else (s, [])
  | SimulateAccident => triggerSafetyCheck s
  | Tick h => if isLive h s then intervalCallback s else (s, [])
  | IAmSafe => if showSafetyCheck r then handleIAmSafe s else (s, [])
  | TriggerNow => if showSafetyCheck r then triggerEmergency s else (s, [])
  | Dismiss =>
      if emergencyTriggered r then (set_emergencyTriggered false s, [])
      else (s, [])
  | PositionFix c => (set_location (Some c) s, [])
  | NameTyped n => (set_userName n s, [])
  end.

(** The page: the state React holds and the state its last committed
    render showed. *)
Record Page := mkPage {
  current : AppState;
  rendered : AppState
}.

Definition startPage : Page := mkPage initialState initialState.

(** What happens to the page: the browser delivers an event, or React
    re-renders and runs the effects whose dependencies changed. *)
Inductive Turn :=
| Event (a : Action)
| Commit.

Definition deliver (p : Page) (t : Turn) : Page * list Output :=
  match t with
  | Commit => (mkPage (current p) (current p), [])
  | Event a =>
      let '(s, o) := stepRendered (rendered p) (current p) a in
      (mkPage s (rendered p), o)
  end.

Fixpoint deliverAll (p : Page) (ts : list Turn) : Page * list Output :=
  match ts with
  | [] => (p, [])
  | t :: ts' =>
      let '(p1, o1) := deliver p t in
      let '(p2, o2) := deliverAll p1 ts' in
      (p2, o1 ++ o2)
  end.

(** ** The magnitude of a sample *)

(** A component of the acceleration as a number, an absent one counting
    as 0. *)
Definition component (c : option float) : float :=
  match c with
  | Some v => v
  | None => 0%float
  end.

(** The square root of the sum of the squares of the three components. *)
Definition specMagnitude (ax ay az : option float) : float :=
  PrimFloat.sqrt (component ax * component ax
                  + component ay * component ay
                  + component az * component az)%float.

(** A component as the sensor interface delivers it: [null] or a number,
    never [NaN]. *)
Definition reading (c : option float) : bool :=
  match c with
  | Some v => negb (PrimFloat.is_nan v)
  | None => true
  end.

(** The sample fires for a listener that holds [seen]. *)
Definition fires (ax ay az : option float) (now1 seen : Z) : Prop :=
  JsNumber.gt (specMagnitude ax ay az) 25 = true /\ 5000 < now1 - seen.

(** The events the workflow has produced before the lookup. *)
Definition beforeLookup (loc : option Coords) (c : Coords) : list Effect :=
  match loc with
  | Some _ => []
  | None => [SetLocation c]
  end.

(** The body the workflow posts at [c] for the result [r]. *)
Definition bodyAt (name : string) (c : Coords) (r : HospitalResult) : IncidentBody :=
  {| body_lat := lat c; body_lng := lng c;
     body_details := incidentDetails name (lat c) (lng c) (result_text r) |}.

(** ** The chunks a lookup keeps *)

(** [chunk.maps?.uri] is truthy. *)
Definition hasUri (m : MapsChunk) : bool :=
  match maps_uri m with
  | Some u => JsString.truthy u
  | None => false
  end.

(** The [maps] parts that carry a non-empty [uri], in the order of the
    reply. *)
Fixpoint keptMaps (cs : list (option GroundingChunk)) : list MapsChunk :=
  match cs with
  | [] => []
  | Some {| maps := Some m |} :: cs' =>
      if hasUri m then m :: keptMaps cs' else keptMaps cs'
  | _ :: cs' => keptMaps cs'
  end.

(** What a link must hold for the [maps] part it was made from. *)
Definition linkOf (l : HospitalLink) (m : MapsChunk) : Prop :=
  link_title l = maps_title m
  /\ maps_uri m = Some (link_uri l)
  /\ link_phone l = match maps_phone m with
                    | Some p => if JsString.truthy p then p else "N/A"
                    | None => "N/A"
                    end.

(** The text of a reply, or the stock sentence when it has none. *)
Definition textOf (response : GenerateContentResponse) : string :=
  match text response with
  | Some t => if JsString.truthy t then t else "No hospital information found."
  | None => "No hospital information found."
  end.


(** * Properties *)

(** ** Bookkeeping on outputs *)

Lemma jerkTimes_app (o1 o2 : list Output) :
  jerkTimes (o1 ++ o2) = jerkTimes o1 ++ jerkTimes o2.
Proof.
  induction o1 as [|x o1 IH]; simpl; [reflexivity|].
  destruct x; simpl; rewrite IH; reflexivity.
Qed.

Lemma emergencies_app (o1 o2 : list Output) :
  emergencies (o1 ++ o2) = (emergencies o1 + emergencies o2)%nat.
Proof.
  induction o1 as [|x o1 IH]; simpl; [reflexivity|].
  destruct x; simpl; rewrite IH; reflexivity.
Qed.

Lemma started_app (o1 o2 : list Output) :
  started (o1 ++ o2) = (started o1 + started o2)%nat.
Proof.
  induction o1 as [|x o1 IH]; simpl; [reflexivity|].
  destruct x; simpl; rewrite IH; reflexivity.
Qed.

(** ** The handlers, field by field *)

Lemma clearTimerRef_fields (s : AppState) :
  let s' := fst (clearTimerRef s) in
  showSafetyCheck s' = showSafetyCheck s /\ countdown s' = countdown s /\
  lastJerk s' = lastJerk s /\ emergencyTriggered s' = emergencyTriggered s /\
  isMonitoring s' = isMonitoring s /\ timerRef s' = timerRef s /\
  nextHandle s' = nextHandle s /\
  jerkTimes (snd (clearTimerRef s)) = [] /\
  emergencies (snd (clearTimerRef s)) = 0%nat /\
  started (snd (clearTimerRef s)) = 0%nat.
Proof.
  unfold clearTimerRef. destruct (timerRef s) eqn:E; simpl; rewrite ?E; repeat split.
Qed.

Lemma triggerSafetyCheck_fields (s : AppState) :
  let s' := fst (triggerSafetyCheck s) in
  showSafetyCheck s' = true /\ countdown s' = 60 /\
  lastJerk s' = lastJerk s /\ emergencyTriggered s' = emergencyTriggered s /\
  isMonitoring s' = isMonitoring s /\
  timerRef s' = Some (nextHandle s) /\
  nextHandle s' = Pos.succ (nextHandle s) /\
  jerkTimes (snd (triggerSafetyCheck s)) = [] /\
  emergencies (snd (triggerSafetyCheck s)) = 0%nat /\
  started (snd (triggerSafetyCheck s)) = 1%nat.
Proof.
  unfold triggerSafetyCheck, clearTimerRef.
  destruct (timerRef (set_countdown 60 (set_showSafetyCheck true s))) eqn:E;
    simpl; repeat split.
Qed.

Lemma handleMotion_fires (s : AppState) (ev : DeviceMotionEvent) (now1 now2 : Z) :
  jerkCondition s ev now1 ->
  handleMotion ev now1 now2 s =
    (fst (triggerSafetyCheck (set_lastJerk now2 s)),
     JerkEvent now2 :: snd (triggerSafetyCheck (set_lastJerk now2 s))).
Proof.
  intros (acc & Hacc & Hgt & Hcool). unfold handleMotion. rewrite Hacc, Hgt.
  apply Z.ltb_lt in Hcool. rewrite Hcool. simpl.
  destruct (triggerSafetyCheck (set_lastJerk now2 s)); reflexivity.
Qed.

Lemma handleMotion_silent (s : AppState) (ev : DeviceMotionEvent) (now1 now2 : Z) :
  ~ jerkCondition s ev now1 -> handleMotion ev now1 now2 s = (s, []).
Proof.
  intros Hno. unfold handleMotion.
  destruct (accelerationIncludingGravity ev) as [acc|] eqn:Hacc; [|reflexivity].
  destruct (JsNumber.gt (totalAcc acc) 25) eqn:Hgt; [|reflexivity].
  destruct (5000 <? now1 - lastJerk s) eqn:Hcool; [|reflexivity].
  exfalso. apply Hno. exists acc. apply Z.ltb_lt in Hcool. auto.
Qed.

Lemma jerkCondition_dec (s : AppState) (ev : DeviceMotionEvent) (now1 : Z) :
  jerkCondition s ev now1 \/ ~ jerkCondition s ev now1.
Proof.
  unfold jerkCondition.
  destruct (accelerationIncludingGravity ev) as [acc|].
  - destruct (JsNumber.gt (totalAcc acc) 25) eqn:Hgt.
    + destruct (Z_lt_dec 5000 (now1 - lastJerk s)).
      * left. exists acc. auto.
      * right. intros (a & Ha & _ & Hc). tauto.
    + right. intros (a & Ha & Hg & _). injection Ha as <-. congruence.
  - right. intros (a & Ha & _). discriminate.
Qed.

(** ** The jerk detector *)

Lemma handleMotion_emits_iff (s : AppState) (ev : DeviceMotionEvent) (now1 now2 : Z) :
  (jerkTimes (snd (handleMotion ev now1 now2 s)) = [now2] <-> jerkCondition s ev now1)
  /\ (jerkCondition s ev now1 ->
        lastJerk (fst (handleMotion ev now1 now2 s)) = now2
        /\ showSafetyCheck (fst (handleMotion ev now1 now2 s)) = true)
  /\ (~ jerkCondition s ev now1 -> handleMotion ev now1 now2 s = (s, [])).
Proof.
  assert (Hfire : jerkCondition s ev now1 ->
                  jerkTimes (snd (handleMotion ev now1 now2 s)) = [now2]
                  /\ lastJerk (fst (handleMotion ev now1 now2 s)) = now2
                  /\ showSafetyCheck (fst (handleMotion ev now1 now2 s)) = true).
  { intros H. rewrite (handleMotion_fires _ _ _ _ H). simpl.
    pose proof (triggerSafetyCheck_fields (set_lastJerk now2 s)) as F.
    simpl in F. destruct F as (F1 & _ & F3 & _ & _ & _ & _ & F8 & _).
    rewrite F8, F1, F3. auto. }
  split; [split|split].
  - intros H. destruct (jerkCondition_dec s ev now1) as [Y|N]; [exact Y|].
    rewrite (handleMotion_silent _ _ _ _ N) in H. discriminate.
  - intros H. apply Hfire, H.
  - intros H. apply Hfire, H.
  - apply handleMotion_silent.
Qed.

(** The square of a number that compares equal to 0 is [+0]. *)
Lemma zero_square (v : float) :
  PrimFloat.is_zero v = true -> (v * v)%float = 0%float.
Proof.
  unfold PrimFloat.is_zero. rewrite eqb_spec. intros H.
  rewrite <- (SF2Prim_Prim2SF v).
  destruct (Prim2SF v) as [sg|sg| |sg m e].
  - destruct sg; vm_compute; reflexivity.
  - destruct sg; vm_compute in H; discriminate.
  - vm_compute in H; discriminate.
  - destruct sg; vm_compute in H; discriminate.
Qed.

(** [(c || 0) ** 2] is the square of the component: [c || 0] differs from
    [c] only on a zero, whose square is the same. *)
Lemma square_or_zero (c : option float) :
  reading c = true ->
  JsNumber.square (JsNumber.or_zero c) = (component c * component c)%float.
Proof.
  destruct c as [v|]; [|reflexivity]. cbn [reading component]. intros R.
  apply negb_true_iff in R.
  unfold JsNumber.or_zero, JsNumber.falsy, JsNumber.square. rewrite R.
  cbn [orb]. destruct (PrimFloat.is_zero v) eqn:Z0; [|reflexivity].
  rewrite (zero_square v Z0). reflexivity.
Qed.

Lemma totalAcc_magnitude (ax ay az : option float) :
  reading ax = true -> reading ay = true -> reading az = true ->
  totalAcc (mkAcc ax ay az) = specMagnitude ax ay az.
Proof.
  intros Hx Hy Hz. unfold totalAcc, specMagnitude. cbn [acc_x acc_y acc_z].
  rewrite (square_or_zero ax Hx), (square_or_zero ay Hy), (square_or_zero az Hz).
  reflexivity.
Qed.

Lemma jerkCondition_fires (s : AppState) (ax ay az : option float) (now1 : Z) :
  reading ax = true -> reading ay = true -> reading az = true ->
  (jerkCondition s (mkMotion (Some (mkAcc ax ay az))) now1
   <-> fires ax ay az now1 (lastJerk s)).
Proof.
  intros Hx Hy Hz. unfold jerkCondition, fires.
  cbn [accelerationIncludingGravity]. split.
  - intros (acc & Ha & Hg & Hc). injection Ha as <-.
    rewrite (totalAcc_magnitude ax ay az Hx Hy Hz) in Hg. auto.
  - intros (Hg & Hc). exists (mkAcc ax ay az).
    rewrite (totalAcc_magnitude ax ay az Hx Hy Hz). auto.
Qed.

(** The listener of the current render is [handleMotion]. *)
Lemma handleMotionClosure_current (ev : DeviceMotionEvent) (now1 now2 : Z)
    (s : AppState) :
  handleMotionClosure (lastJerk s) ev now1 now2 s = handleMotion ev now1 now2 s.
Proof. reflexivity. Qed.

Lemma handleMotionClosure_cases (seen : Z) (ax ay az : option float)
    (now1 now2 : Z) (s : AppState) :
  reading ax = true -> reading ay = true -> reading az = true ->
  handleMotionClosure seen (mkMotion (Some (mkAcc ax ay az))) now1 now2 s =
    if (JsNumber.gt (specMagnitude ax ay az) 25 && (5000 <? now1 - seen))%bool
    then (fst (triggerSafetyCheck (set_lastJerk now2 s)),
          JerkEvent now2 :: snd (triggerSafetyCheck (set_lastJerk now2 s)))
    else (s, []).
Proof.
  intros Hx Hy Hz. unfold handleMotionClosure. cbn [accelerationIncludingGravity].
  rewrite (totalAcc_magnitude ax ay az Hx Hy Hz).
  destruct (JsNumber.gt (specMagnitude ax ay az) 25 && (5000 <? now1 - seen))%bool;
    [|reflexivity].
  destruct (triggerSafetyCheck (set_lastJerk now2 s)); reflexivity.
Qed.

(** C6.  For a sample whose present components are numbers, the listener
    emits a jerk (it stamps [lastJerk] and calls [triggerSafetyCheck])
    exactly when the square root of [ax^2 + ay^2 + az^2], an absent
    component counting as 0, is strictly greater than 25 and
    [now - lastJerk > 5000], for the [lastJerk] the listener holds;
    otherwise it leaves the state alone, as it does for a sample without
    acceleration.  A sample of magnitude exactly 25 never fires, and a
    sample of magnitude 25.0001 fires whenever the cooldown has elapsed.
    The listener registered in a render of the current state holds the
    current [lastJerk]. *)
Theorem jerk_emitted_iff (s : AppState) (seen : Z) (ax ay az : option float)
    (now1 now2 : Z)
    (Hx : reading ax = true) (Hy : reading ay = true) (Hz : reading az = true) :
  let ev := mkMotion (Some (mkAcc ax ay az)) in
  let h := handleMotionClosure seen ev now1 now2 s in
  (jerkTimes (snd h) = [now2] <-> fires ax ay az now1 seen)
  /\ (fires ax ay az now1 seen ->
        lastJerk (fst h) = now2 /\ showSafetyCheck (fst h) = true)
  /\ (~ fires ax ay az now1 seen -> h = (s, []))
  /\ (specMagnitude ax ay az = 25%float -> h = (s, []))
  /\ (specMagnitude ax ay az = justAboveThreshold ->
        5000 < now1 - seen -> jerkTimes (snd h) = [now2])
  /\ handleMotionClosure seen (mkMotion None) now1 now2 s = (s, [])
  /\ handleMotion ev now1 now2 s
     = handleMotionClosure (lastJerk s) ev now1 now2 s.
Proof.
  intros ev h. unfold h, ev, fires.
  rewrite (handleMotionClosure_cases seen ax ay az now1 now2 s Hx Hy Hz).
  pose proof (triggerSafetyCheck_fields (set_lastJerk now2 s)) as F.
  cbv zeta in F. destruct F as (F1 & _ & F3 & _ & _ & _ & _ & F8 & _).
  destruct (JsNumber.gt (specMagnitude ax ay az) 25) eqn:G;
    destruct (Z.ltb_spec 5000 (now1 - seen)) as [C|C]; cbn [andb fst snd jerkTimes].
  - rewrite F8, F1, F3.
    split; [split; auto|]. split; [auto|]. split; [intros N; exfalso; auto|].
    split; [intros M; rewrite M in G; vm_compute in G; discriminate|].
    split; [reflexivity|]. split; reflexivity.
  - split; [split; [discriminate|intros [_ C']; lia]|].
    split; [intros [_ C']; lia|]. split; [reflexivity|]. split; [reflexivity|].
    split; [intros _ C'; lia|]. split; reflexivity.
  - split; [split; [discriminate|intros [G' _]; discriminate]|].
    split; [intros [G' _]; discriminate|]. split; [reflexivity|].
    split; [reflexivity|].
    split; [intros M; rewrite M in G; vm_compute in G; discriminate|].
    split; reflexivity.
  - split; [split; [discriminate|intros [G' _]; discriminate]|].
    split; [intros [G' _]; discriminate|]. split; [reflexivity|].
    split; [reflexivity|].
    split; [intros M; rewrite M in G; vm_compute in G; discriminate|].
    split; reflexivity.
Qed.

(** Components 15 and 20 give magnitude 25 and do not fire; a sample that
    lacks two components and holds 30 on the third fires, a minute after
    the session started. *)
Lemma jerk_emitted_iff_witness :
  handleMotion (mkMotion (Some (mkAcc (Some 15%float) (Some 20%float) None)))
               60000 60000 initialState = (initialState, [])
  /\ jerkTimes (snd (handleMotion
        (mkMotion (Some (mkAcc None (Some 30%float) None)))
        60000 60001 initialState)) = [60001].
Proof.
  split.
  - apply (proj1 (proj2 (proj2 (proj2 (jerk_emitted_iff initialState 0
             (Some 15%float) (Some 20%float) None 60000 60000
             eq_refl eq_refl eq_refl))))).
    reflexivity.
  - apply (proj2 (proj1 (jerk_emitted_iff initialState 0
             None (Some 30%float) None 60000 60001
             eq_refl eq_refl eq_refl))).
    split; [reflexivity | simpl; lia].
Defined.

(** C9.  A motion event without [accelerationIncludingGravity] changes no
    state and emits nothing, whatever the clock says, both in the handler
    and through the event loop; an absent component counts as 0 in the
    magnitude, which is therefore defined for every sensor reading. *)
Theorem absent_acceleration_ignored (s : AppState) (now1 now2 : Z) :
  handleMotion (mkMotion None) now1 now2 s = (s, [])
  /\ step s (Motion (mkMotion None) now1 now2) = (s, [])
  /\ (forall y z, totalAcc (mkAcc None y z) = totalAcc (mkAcc (Some 0%float) y z))
  /\ (forall x z, totalAcc (mkAcc x None z) = totalAcc (mkAcc x (Some 0%float) z))
  /\ (forall x y, totalAcc (mkAcc x y None) = totalAcc (mkAcc x y (Some 0%float)))
  /\ totalAcc (mkAcc None None None) = 0%float.
Proof.
  repeat split; try reflexivity.
  simpl. destruct (isMonitoring s); reflexivity.
Qed.

(** ** The cooldown *)

Lemma startsCountdown_motion (s : AppState) (ev : DeviceMotionEvent) (now1 now2 : Z) :
  startsCountdown s (Motion ev now1 now2) = true <->
  isMonitoring s = true /\ jerkCondition s ev now1.
Proof.
  unfold startsCountdown, jerkCondition. split.
  - destruct (accelerationIncludingGravity ev) as [acc|]; [|discriminate].
    intros H. apply andb_prop in H as [H Hc]. apply andb_prop in H as [Hm Hg].
    apply Z.ltb_lt in Hc. split; [exact Hm|]. exists acc. auto.
  - intros (Hm & acc & -> & Hg & Hc). rewrite Hm, Hg. simpl.
    apply Z.ltb_lt. exact Hc.
Qed.

Lemma intervalCallback_fields (s : AppState) :
  let s' := fst (intervalCallback s) in
  lastJerk s' = lastJerk s /\ isMonitoring s' = isMonitoring s /\
  timerRef s' = timerRef s /\ nextHandle s' = nextHandle s /\
  jerkTimes (snd (intervalCallback s)) = [] /\
  started (snd (intervalCallback s)) = 0%nat.
Proof.
  unfold intervalCallback. destruct (countdown s <=? 1); simpl.
  - destruct (timerRef s) eqn:E; simpl; rewrite ?E; repeat split.
  - repeat split.
Qed.

(** Only a motion sample can move [lastJerk] or emit a jerk. *)
Lemma step_other_lastJerk (s : AppState) (a : Action) :
  (forall ev now1 now2, a <> Motion ev now1 now2) ->
  lastJerk (fst (step s a)) = lastJerk s /\ jerkTimes (snd (step s a)) = [].
Proof.
  intros Hnot. destruct a; simpl.
  - split; reflexivity.
  - exfalso. eapply Hnot. reflexivity.
  - pose proof (triggerSafetyCheck_fields s) as F. simpl in F. tauto.
  - destruct (isLive h s); [|split; reflexivity].
    pose proof (intervalCallback_fields s) as F. simpl in F. tauto.
  - destruct (showSafetyCheck s); [|split; reflexivity].
    unfold handleIAmSafe.
    pose proof (clearTimerRef_fields (set_showSafetyCheck false s)) as F.
    simpl in F. tauto.
  - destruct (showSafetyCheck s); split; reflexivity.
  - destruct (emergencyTriggered s); split; reflexivity.
  - split; reflexivity.
  - split; reflexivity.
Qed.

(** A step either leaves [lastJerk] alone and emits no jerk, or emits one
    jerk, stamped more than 5000 ms after the previous stamp. *)
Lemma step_jerk (s : AppState) (a : Action) :
  clockOk a = true ->
  (jerkTimes (snd (step s a)) = [] /\ lastJerk (fst (step s a)) = lastJerk s)
  \/ (exists t, jerkTimes (snd (step s a)) = [t] /\
                lastJerk (fst (step s a)) = t /\ 5000 < t - lastJerk s).
Proof.
  intros Hclock.
  destruct a as [|ev now1 now2| | | | | | |];
    try (left; apply and_comm, step_other_lastJerk; intros; discriminate).
  simpl in *. apply Z.leb_le in Hclock.
  destruct (isMonitoring s); [|left; split; reflexivity].
  destruct (jerkCondition_dec s ev now1) as [Y|N].
  - right. exists now2. rewrite (handleMotion_fires _ _ _ _ Y). simpl.
    pose proof (triggerSafetyCheck_fields (set_lastJerk now2 s)) as F.
    simpl in F. destruct F as (_ & _ & F3 & _ & _ & _ & _ & F8 & _).
    rewrite F8, F3. destruct Y as (_ & _ & _ & Hc). repeat split; lia.
  - left. rewrite (handleMotion_silent _ _ _ _ N). split; reflexivity.
Qed.

Lemma run_cons (s : AppState) (a : Action) (tr : list Action) :
  run s (a :: tr) =
    (fst (run (fst (step s a)) tr), snd (step s a) ++ snd (run (fst (step s a)) tr)).
Proof.
  simpl. destruct (step s a) as [s1 o1]. simpl.
  destruct (run s1 tr) as [s2 o2]. reflexivity.
Qed.

Lemma run_app (s : AppState) (tr1 tr2 : list Action) :
  run s (tr1 ++ tr2) =
    (fst (run (fst (run s tr1)) tr2), snd (run s tr1) ++ snd (run (fst (run s tr1)) tr2)).
Proof.
  revert s. induction tr1 as [|a tr1 IH]; intros s.
  - simpl. destruct (run s tr2); reflexivity.
  - rewrite <- app_comm_cons, !run_cons, IH. simpl. rewrite app_assoc. reflexivity.
Qed.

Lemma run_spaced (tr : list Action) :
  forall s, forallb clockOk tr = true ->
            spacedFrom (lastJerk s) (jerkTimes (snd (run s tr))).
Proof.
  induction tr as [|a tr IH]; intros s Hc; [exact I|].
  simpl in Hc. apply andb_prop in Hc as [Ha Htr].
  rewrite run_cons. simpl. rewrite jerkTimes_app.
  specialize (IH (fst (step s a)) Htr).
  destruct (step_jerk s a Ha) as [[E L]|(t & E & L & Hgap)]; rewrite E; simpl.
  - rewrite <- L. exact IH.
  - split; [exact Hgap|]. rewrite <- L. exact IH.
Qed.

Lemma spacedFrom_all (ts : list Z) :
  forall t0 t, spacedFrom t0 ts -> In t ts -> 5000 < t - t0.
Proof.
  induction ts as [|u ts IH]; intros t0 t Hs Hin; [contradiction|].
  destruct Hs as [Hu Hs]. destruct Hin as [<-|Hin]; [exact Hu|].
  specialize (IH u t Hs Hin). lia.
Qed.

Lemma spacedFrom_nth (ts : list Z) :
  forall t0 i j t1 t2, spacedFrom t0 ts -> (i < j)%nat ->
    nth_error ts i = Some t1 -> nth_error ts j = Some t2 -> 5000 < t2 - t1.
Proof.
  induction ts as [|u ts IH]; intros t0 i j t1 t2 Hs Hij H1 H2.
  - destruct i; discriminate.
  - destruct Hs as [Hu Hs]. destruct j as [|j]; [lia|]. simpl in H2.
    destruct i as [|i].
    + simpl in H1. injection H1 as <-.
      apply (spacedFrom_all ts u t2 Hs). eapply nth_error_In, H2.
    + simpl in H1. apply (IH u i j t1 t2 Hs); [lia|assumption|assumption].
Qed.

(** When React commits before every event, two jerks emitted in one run
    never carry [occurredAt] stamps less than 5000 ms apart, whatever the
    samples and whatever else happens in between, provided that inside one
    call of the handler the second reading of the clock is not earlier
    than the first. *)
Lemma jerks_spaced_when_committed (s : AppState) (tr : list Action) :
  forallb clockOk tr = true ->
  forall i j t1 t2, i <> j ->
    nth_error (jerkTimes (snd (run s tr))) i = Some t1 ->
    nth_error (jerkTimes (snd (run s tr))) j = Some t2 ->
    5000 <= Z.abs (t2 - t1).
Proof.
  intros Hc i j t1 t2 Hij H1 H2.
  pose proof (run_spaced tr s Hc) as Hs.
  destruct (Nat.lt_ge_cases i j) as [Hlt|Hge].
  - pose proof (spacedFrom_nth _ _ _ _ _ _ Hs Hlt H1 H2). lia.
  - assert (Hlt : (j < i)%nat) by lia.
    pose proof (spacedFrom_nth _ _ _ _ _ _ Hs Hlt H2 H1). lia.
Qed.

(** With the render up to date, a turn of the page is a [step]. *)
Lemma stepRendered_current (s : AppState) (a : Action) :
  stepRendered s s a = step s a.
Proof. destruct a; reflexivity. Qed.

(** [run] is the page with a commit before every event. *)
Lemma deliverAll_committed (tr : list Action) :
  forall p,
    snd (deliverAll p (flat_map (fun a => [Commit; Event a]) tr))
      = snd (run (current p) tr)
    /\ current (fst (deliverAll p (flat_map (fun a => [Commit; Event a]) tr)))
      = fst (run (current p) tr).
Proof.
  induction tr as [|a tr IH]; intros p; [split; reflexivity|].
  cbn [flat_map app deliverAll deliver current rendered].
  rewrite stepRendered_current, run_cons.
  destruct (step (current p) a) as [s1 o1]. cbn [fst snd].
  specialize (IH (mkPage s1 (current p))). cbn [current] in IH.
  destruct (deliverAll (mkPage s1 (current p))
              (flat_map (fun a => [Commit; Event a]) tr)) as [p2 o2].
  cbn [fst snd] in *. destruct IH as [IH1 IH2].
  rewrite IH1, IH2. split; reflexivity.
Qed.

(** The cooldown of the page that commits before every event. *)
Lemma committed_page_spaced (p : Page) (tr : list Action) :
  forallb clockOk tr = true ->
  forall i j t1 t2, i <> j ->
    nth_error (jerkTimes (snd (deliverAll p
       (flat_map (fun a => [Commit; Event a]) tr)))) i = Some t1 ->
    nth_error (jerkTimes (snd (deliverAll p
       (flat_map (fun a => [Commit; Event a]) tr)))) j = Some t2 ->
    5000 <= Z.abs (t2 - t1).
Proof.
  rewrite (proj1 (deliverAll_committed tr p)).
  apply jerks_spaced_when_committed.
Qed.

(** C7.  The cooldown does not hold between two commits.  The listener
    tests the [lastJerk] of the render that registered it: two violent
    samples 1 ms apart, delivered before React has committed the render
    that follows the first, both emit a jerk, with stamps 10000 and 10001.
    With a commit between them, the second is silent. *)
Theorem stale_listener_emits_close_jerks :
  jerkTimes (snd (deliverAll startPage
     [Event StartProtect; Commit;
      Event (Motion shake 10000 10000); Event (Motion shake 10001 10001)]))
    = [10000; 10001]
  /\ started (snd (deliverAll startPage
     [Event StartProtect; Commit;
      Event (Motion shake 10000 10000); Event (Motion shake 10001 10001)]))
    = 2%nat
  /\ jerkTimes (snd (deliverAll startPage
     [Event StartProtect; Commit;
      Event (Motion shake 10000 10000); Commit;
      Event (Motion shake 10001 10001)]))
    = [10000].
Proof. split; [|split]; reflexivity. Qed.

Lemma step_quiet_lastJerk (s : AppState) (a : Action) :
  startsCountdown s a = false -> lastJerk (fst (step s a)) = lastJerk s.
Proof.
  intros Hq. destruct a as [|ev now1 now2| | | | | | |];
    try (apply step_other_lastJerk; intros; discriminate).
  simpl. destruct (isMonitoring s) eqn:Hm; [|reflexivity].
  rewrite handleMotion_silent; [reflexivity|].
  intros Y. assert (startsCountdown s (Motion ev now1 now2) = true)
    by (apply startsCountdown_motion; auto).
  congruence.
Qed.

Lemma run_quiet_lastJerk (tr : list Action) :
  forall s, quiet s tr = true -> lastJerk (fst (run s tr)) = lastJerk s.
Proof.
  induction tr as [|a tr IH]; intros s Hq; [reflexivity|].
  simpl in Hq. apply andb_prop in Hq as [Ha Htr].
  apply negb_true_iff in Ha.
  rewrite run_cons. simpl. rewrite (IH _ Htr). apply step_quiet_lastJerk, Ha.
Qed.

Lemma step_IAmSafe (s : AppState) :
  showSafetyCheck s = true -> step s IAmSafe = handleIAmSafe s.
Proof. intros H. simpl. rewrite H. reflexivity. Qed.

Lemma handleIAmSafe_hides (s : AppState) :
  showSafetyCheck (fst (handleIAmSafe s)) = false.
Proof.
  unfold handleIAmSafe.
  pose proof (clearTimerRef_fields (set_showSafetyCheck false s)) as F.
  simpl in F. destruct F as (F1 & _). exact F1.
Qed.

(** C10.  [handleIAmSafe] leaves [lastJerk] alone.  Take a jerk that starts
    a countdown, stamped [now2]; let the countdown run with anything that
    does not start another one; cancel it with "I AM SAFE".  Then a sample
    whose clock reading is at most 5000 ms after the stamp is dropped,
    whatever its magnitude: the state does not change and no safety check
    opens. *)
Theorem cancelled_countdown_keeps_cooldown
    (s : AppState) (ev : DeviceMotionEvent) (now1 now2 : Z)
    (mid : list Action) (ev' : DeviceMotionEvent) (now1' now2' : Z) :
  startsCountdown s (Motion ev now1 now2) = true ->
  quiet (fst (step s (Motion ev now1 now2))) mid = true ->
  showSafetyCheck (fst (run (fst (step s (Motion ev now1 now2))) mid)) = true ->
  now1' - now2 <= 5000 ->
  let cancelled :=
    fst (step (fst (run (fst (step s (Motion ev now1 now2))) mid)) IAmSafe) in
  lastJerk cancelled = now2
  /\ showSafetyCheck cancelled = false
  /\ step cancelled (Motion ev' now1' now2') = (cancelled, []).
Proof.
  intros Hstart Hquiet Hshow Hnear cancelled.
  apply startsCountdown_motion in Hstart as [Hmon Hcond].
  assert (L1 : lastJerk (fst (step s (Motion ev now1 now2))) = now2).
  { simpl. rewrite Hmon, (handleMotion_fires _ _ _ _ Hcond). simpl.
    pose proof (triggerSafetyCheck_fields (set_lastJerk now2 s)) as F.
    simpl in F. destruct F as (_ & _ & F3 & _). exact F3. }
  assert (L2 : lastJerk (fst (run (fst (step s (Motion ev now1 now2))) mid)) = now2).
  { rewrite (run_quiet_lastJerk _ _ Hquiet). exact L1. }
  assert (L3 : lastJerk cancelled = now2).
  { unfold cancelled. etransitivity; [|exact L2].
    apply step_other_lastJerk. intros; discriminate. }
  assert (S3 : showSafetyCheck cancelled = false).
  { unfold cancelled. rewrite (step_IAmSafe _ Hshow). apply handleIAmSafe_hides. }
  repeat split; [exact L3 | exact S3 |].
  simpl. destruct (isMonitoring cancelled); [|reflexivity].
  apply handleMotion_silent. intros (_ & _ & _ & Hc). lia.
Qed.

(** A shake at 10 s, three ticks and a position fix, "I AM SAFE", and an
    even harder shake 4 s after the first one. *)
Lemma cancelled_countdown_keeps_cooldown_witness :
  let s := fst (step initialState StartProtect) in
  let cancelled :=
    fst (step (fst (run (fst (step s (Motion shake 10000 10000)))
                        [Tick 1; Tick 1; Tick 1; PositionFix (mkCoords 12.5 77.5)]))
              IAmSafe) in
  lastJerk cancelled = 10000
  /\ showSafetyCheck cancelled = false
  /\ step cancelled
       (Motion (mkMotion (Some (mkAcc (Some 90%float) (Some 90%float) None)))
               14000 14000) = (cancelled, []).
Proof.
  intros s cancelled.
  apply (cancelled_countdown_keeps_cooldown s shake 10000 10000
           [Tick 1; Tick 1; Tick 1; PositionFix (mkCoords 12.5 77.5)]
           (mkMotion (Some (mkAcc (Some 90%float) (Some 90%float) None)))
           14000 14000);
    [reflexivity | reflexivity | reflexivity | simpl; lia].
Defined.

(** ** The tick source *)

Lemma timerOk_initial : timerOk initialState.
Proof. left. reflexivity. Qed.

Lemma clearTimerRef_clears (s : AppState) :
  timerOk s -> intervals (fst (clearTimerRef s)) = [].
Proof.
  unfold clearTimerRef. intros [E|(h & R & E & _)].
  - destruct (timerRef s); simpl; rewrite E; reflexivity.
  - rewrite R. simpl. rewrite E. simpl. rewrite Pos.eqb_refl. reflexivity.
Qed.

Lemma clearTimerRef_reports (s : AppState) (h : positive) :
  timerOk s -> In h (intervals s) -> In (IntervalCleared h) (snd (clearTimerRef s)).
Proof.
  unfold clearTimerRef. intros [E|(h' & R & E & _)] Hin.
  - rewrite E in Hin. contradiction.
  - rewrite E in Hin. destruct Hin as [<-|[]]. rewrite R. left. reflexivity.
Qed.

Lemma triggerSafetyCheck_timer (s : AppState) :
  timerOk s ->
  intervals (fst (triggerSafetyCheck s)) = [nextHandle s]
  /\ timerOk (fst (triggerSafetyCheck s))
  /\ (forall h, In h (intervals s) ->
        In (IntervalCleared h) (snd (triggerSafetyCheck s))
        /\ ~ In h (intervals (fst (triggerSafetyCheck s)))).
Proof.
  intros Hok.
  pose proof (clearTimerRef_clears (set_countdown 60 (set_showSafetyCheck true s)) Hok) as Hc.
  pose proof (clearTimerRef_fields (set_countdown 60 (set_showSafetyCheck true s))) as F.
  simpl in F. destruct F as (_ & _ & _ & _ & _ & _ & Fn & _).
  assert (Hi : intervals (fst (triggerSafetyCheck s)) = [nextHandle s]).
  { unfold triggerSafetyCheck.
    destruct (clearTimerRef (set_countdown 60 (set_showSafetyCheck true s)))
      as [s2 o2]. simpl in *. rewrite Hc, Fn. reflexivity. }
  split; [exact Hi|split].
  - right. exists (nextHandle s).
    pose proof (triggerSafetyCheck_fields s) as G. simpl in G.
    destruct G as (_ & _ & _ & _ & _ & G6 & G7 & _).
    rewrite G6, G7. repeat split; [exact Hi | apply Pos.lt_succ_diag_r].
  - intros h Hin. split.
    + pose proof (clearTimerRef_reports
        (set_countdown 60 (set_showSafetyCheck true s)) h Hok Hin) as R.
      unfold triggerSafetyCheck.
      destruct (clearTimerRef (set_countdown 60 (set_showSafetyCheck true s)))
        as [s2 o2]. simpl in *. right. apply in_or_app. left. exact R.
    + rewrite Hi. destruct Hok as [E|(h' & _ & E & Hlt)]; rewrite E in Hin.
      * contradiction.
      * destruct Hin as [<-|[]]. intros [Heq|[]]. rewrite Heq in Hlt.
        exact (Pos.lt_irrefl _ Hlt).
Qed.

Lemma intervalCallback_timerOk (s : AppState) :
  timerOk s -> timerOk (fst (intervalCallback s)).
Proof.
  intros Hok. unfold intervalCallback. destruct (countdown s <=? 1); [|exact Hok].
  left. pose proof (clearTimerRef_clears s Hok) as Hc. unfold clearTimerRef in Hc.
  destruct (timerRef s); simpl in *; exact Hc.
Qed.

Lemma step_timerOk (s : AppState) (a : Action) :
  timerOk s -> timerOk (fst (step s a)).
Proof.
  intros Hok. destruct a as [|ev now1 now2| |h| | | | |]; simpl; try exact Hok.
  - destruct (isMonitoring s); [|exact Hok].
    destruct (jerkCondition_dec s ev now1) as [Y|N].
    + rewrite (handleMotion_fires _ _ _ _ Y). simpl.
      apply (triggerSafetyCheck_timer (set_lastJerk now2 s)), Hok.
    + rewrite (handleMotion_silent _ _ _ _ N). exact Hok.
  - apply triggerSafetyCheck_timer, Hok.
  - destruct (isLive h s); [|exact Hok]. apply intervalCallback_timerOk, Hok.
  - destruct (showSafetyCheck s); [|exact Hok].
    left. apply (clearTimerRef_clears (set_showSafetyCheck false s)), Hok.
  - destruct (showSafetyCheck s); exact Hok.
  - destruct (emergencyTriggered s); exact Hok.
Qed.

Lemma run_timerOk (tr : list Action) :
  forall s, timerOk s -> timerOk (fst (run s tr)).
Proof.
  induction tr as [|a tr IH]; intros s Hok; [exact Hok|].
  rewrite run_cons. simpl. apply IH, step_timerOk, Hok.
Qed.

(** Every state the application can reach has at most one live interval. *)
Lemma reachable_timerOk (tr : list Action) : timerOk (fst (run initialState tr)).
Proof. apply run_timerOk, timerOk_initial. Qed.

Lemma step_idle (s : AppState) (a : Action) :
  idle s -> startsCountdown s a = false ->
  idle (fst (step s a)) /\ emergencies (snd (step s a)) = 0%nat.
Proof.
  intros [Hs Hi] Hq. destruct a as [|ev now1 now2| |h| | | | |]; simpl.
  - repeat split; assumption.
  - destruct (isMonitoring s) eqn:Hm; [|repeat split; assumption].
    rewrite handleMotion_silent; [repeat split; assumption|].
    intros Y. assert (startsCountdown s (Motion ev now1 now2) = true)
      by (apply startsCountdown_motion; auto).
    congruence.
  - discriminate.
  - unfold isLive. rewrite Hi. simpl. repeat split; assumption.
  - rewrite Hs. repeat split; assumption.
  - rewrite Hs. repeat split; assumption.
  - destruct (emergencyTriggered s); repeat split; assumption.
  - repeat split; assumption.
  - repeat split; assumption.
Qed.

(** Once idle, nothing but a new countdown can call [triggerEmergency]. *)
Lemma run_idle (tr : list Action) :
  forall s, idle s -> quiet s tr = true ->
            idle (fst (run s tr)) /\ emergencies (snd (run s tr)) = 0%nat.
Proof.
  induction tr as [|a tr IH]; intros s Hidle Hq; [split; [exact Hidle|reflexivity]|].
  simpl in Hq. apply andb_prop in Hq as [Ha Htr]. apply negb_true_iff in Ha.
  destruct (step_idle s a Hidle Ha) as [Hidle' He].
  destruct (IH _ Hidle' Htr) as [Hidle'' He'].
  rewrite run_cons. simpl. rewrite emergencies_app, He, He'. split; [exact Hidle''|reflexivity].
Qed.

Lemma tick_decrements (h : positive) (c : Z) (s : AppState) :
  counting h c s -> 1 < c ->
  step s (Tick h) = (set_countdown (c - 1) s, [])
  /\ counting h (c - 1) (set_countdown (c - 1) s).
Proof.
  intros (Hs & Hr & Hi & Hc) Hgt. split.
  - simpl. unfold isLive. rewrite Hi. simpl. rewrite Pos.eqb_refl. simpl.
    unfold intervalCallback. rewrite Hc.
    destruct (c <=? 1) eqn:E; [apply Z.leb_le in E; lia|reflexivity].
  - repeat split; assumption.
Qed.

Lemma tick_expires (h : positive) (c : Z) (s : AppState) :
  counting h c s -> c <= 1 ->
  snd (step s (Tick h)) = [IntervalCleared h; EmergencyInvoked]
  /\ idle (fst (step s (Tick h)))
  /\ emergencyTriggered (fst (step s (Tick h))) = true
  /\ countdown (fst (step s (Tick h))) = 0.
Proof.
  intros (Hs & Hr & Hi & Hc) Hle.
  simpl. unfold isLive. rewrite Hi. simpl. rewrite Pos.eqb_refl. simpl.
  unfold intervalCallback. rewrite Hc.
  destruct (c <=? 1) eqn:E; [|apply Z.leb_gt in E; lia].
  rewrite Hr. simpl. unfold idle. simpl. rewrite Hi. simpl.
  rewrite Pos.eqb_refl. simpl. repeat split.
Qed.

Lemma ticks_S (n : nat) (s : AppState) :
  ticks (S n) s =
    (fst (ticks n (fst (tickOnce s))),
     snd (tickOnce s) ++ snd (ticks n (fst (tickOnce s)))).
Proof.
  simpl. destruct (tickOnce s) as [s1 o1]. simpl.
  destruct (ticks n s1) as [s2 o2]. reflexivity.
Qed.

Lemma ticks_add (a : nat) :
  forall b s,
    ticks (a + b) s =
      (fst (ticks b (fst (ticks a s))),
       snd (ticks a s) ++ snd (ticks b (fst (ticks a s)))).
Proof.
  induction a as [|a IH]; intros b s.
  - simpl. destruct (ticks b s); reflexivity.
  - rewrite Nat.add_succ_l, !ticks_S, IH. simpl. rewrite app_assoc. reflexivity.
Qed.

Lemma ticks_decrement (k : nat) :
  forall h c s, counting h c s -> Z.of_nat k < c ->
    counting h (c - Z.of_nat k) (fst (ticks k s)) /\ snd (ticks k s) = [].
Proof.
  induction k as [|k IH]; intros h c s Hcnt Hlt.
  - simpl. rewrite Z.sub_0_r. split; [exact Hcnt|reflexivity].
  - assert (Hr : timerRef s = Some h) by (destruct Hcnt as (_ & Hr & _); exact Hr).
    destruct (tick_decrements h c s Hcnt) as [Hstep Hcnt']; [lia|].
    rewrite ticks_S. unfold tickOnce. rewrite Hr, Hstep. simpl fst. simpl snd.
    destruct (IH h (c - 1) (set_countdown (c - 1) s) Hcnt') as [IH1 IH2]; [lia|].
    replace (c - Z.of_nat (S k)) with (c - 1 - Z.of_nat k) by lia.
    split; [exact IH1|rewrite IH2; reflexivity].
Qed.

Lemma triggerSafetyCheck_counting (s : AppState) :
  timerOk s -> counting (nextHandle s) 60 (fst (triggerSafetyCheck s)).
Proof.
  intros Hok. pose proof (triggerSafetyCheck_fields s) as F. simpl in F.
  destruct F as (F1 & F2 & _ & _ & _ & F6 & _).
  destruct (triggerSafetyCheck_timer s Hok) as (Hi & _).
  repeat split; assumption.
Qed.

Lemma last_tick (h : positive) (s : AppState) :
  counting h 1 s ->
  snd (ticks 1 s) = [IntervalCleared h; EmergencyInvoked]
  /\ idle (fst (ticks 1 s))
  /\ emergencyTriggered (fst (ticks 1 s)) = true
  /\ countdown (fst (ticks 1 s)) = 0.
Proof.
  intros Hcnt.
  assert (Hr : timerRef s = Some h) by (destruct Hcnt as (_ & Hr & _); exact Hr).
  destruct (tick_expires h 1 s Hcnt) as (Ho & Hidle & He & Hz); [lia|].
  rewrite ticks_S. unfold tickOnce. rewrite Hr. cbn [ticks fst snd].
  rewrite app_nil_r. split; [exact Ho | split; [exact Hidle | split; [exact He | exact Hz]]].
Qed.

(** ** The countdown *)

(** C3.  A countdown started by [triggerSafetyCheck] shows 60.  Each of the
    first 59 ticks takes exactly one second off: after [k <= 59] ticks it
    shows [60 - k] (so 1 after 59), the safety check is still open, the
    interval is still live and [triggerEmergency] has not been called.  The
    60th tick finds [prev <= 1]: instead of counting on at 0 it cancels the
    interval, closes the safety check and calls [triggerEmergency] once
    (the stored counter is put to 0 in the same update, when the safety
    check that displays it is already closed).  After that no tick is left
    to fire: as long as no new countdown is started, [triggerEmergency] is
    not called again. *)
Theorem countdown_expires_on_sixtieth_tick (s : AppState) :
  timerOk s ->
  let s0 := fst (triggerSafetyCheck s) in
  (countdown s0 = 60 /\ showSafetyCheck s0 = true)
  /\ (forall k, (k <= 59)%nat ->
        countdown (fst (ticks k s0)) = 60 - Z.of_nat k
        /\ showSafetyCheck (fst (ticks k s0)) = true
        /\ intervals (fst (ticks k s0)) = [nextHandle s]
        /\ emergencies (snd (ticks k s0)) = 0%nat)
  /\ (showSafetyCheck (fst (ticks 60 s0)) = false
      /\ emergencyTriggered (fst (ticks 60 s0)) = true
      /\ intervals (fst (ticks 60 s0)) = []
      /\ emergencies (snd (ticks 60 s0)) = 1%nat
      /\ countdown (fst (ticks 60 s0)) = 0)
  /\ (forall tr, quiet (fst (ticks 60 s0)) tr = true ->
        emergencies (snd (ticks 60 s0) ++ snd (run (fst (ticks 60 s0)) tr)) = 1%nat).
Proof.
  intros Hok s0.
  pose proof (triggerSafetyCheck_counting s Hok) as Hcnt. fold s0 in Hcnt.
  assert (H59 : counting (nextHandle s) 1 (fst (ticks 59 s0)) /\ snd (ticks 59 s0) = []).
  { destruct (ticks_decrement 59 _ _ _ Hcnt) as [C O]; [simpl; lia|].
    split; [exact C|exact O]. }
  destruct H59 as [C59 O59].
  destruct (last_tick _ _ C59) as (L1 & [L2 L3] & L4 & L5).
  assert (E60 : ticks 60 s0 =
                (fst (ticks 1 (fst (ticks 59 s0))),
                 snd (ticks 59 s0) ++ snd (ticks 1 (fst (ticks 59 s0)))))
    by (exact (ticks_add 59 1 s0)).
  assert (Em : emergencies (snd (ticks 60 s0)) = 1%nat).
  { rewrite E60. cbn [snd]. rewrite O59, L1. reflexivity. }
  assert (Idle60 : idle (fst (ticks 60 s0))).
  { rewrite E60. cbn [fst]. split; assumption. }
  split; [|split; [|split]].
  - destruct Hcnt as (A & _ & _ & B). split; assumption.
  - intros k Hk.
    destruct (ticks_decrement k _ _ _ Hcnt) as [(A & _ & B & C) O]; [lia|].
    rewrite O. repeat split; assumption.
  - destruct Idle60 as [A B]. split; [exact A|].
    split; [|split; [exact B|split; [exact Em|]]];
      rewrite E60; cbn [fst]; assumption.
  - intros tr Hq. destruct (run_idle tr _ Idle60 Hq) as [_ E].
    rewrite emergencies_app, Em, E. reflexivity.
Qed.

(** The countdown of a fresh session. *)
Lemma countdown_expires_on_sixtieth_tick_witness :
  countdown (fst (ticks 59 (fst (triggerSafetyCheck initialState)))) = 1
  /\ emergencies (snd (ticks 59 (fst (triggerSafetyCheck initialState)))) = 0%nat
  /\ emergencies (snd (ticks 60 (fst (triggerSafetyCheck initialState)))) = 1%nat.
Proof.
  pose proof (countdown_expires_on_sixtieth_tick initialState timerOk_initial)
    as (_ & H59 & (_ & _ & _ & H60 & _) & _).
  destruct (H59 59%nat (Nat.le_refl _)) as (A & _ & _ & B).
  split; [exact A | split; [exact B | exact H60]].
Defined.

(** C4.  "I AM SAFE" while the countdown shows anything from 1 to 60 closes
    the safety check, cancels the live interval and does not call
    [triggerEmergency]; and from then on, as long as no new countdown is
    started, nothing calls it: no tick is left and the "TRIGGER NOW" button
    is gone. *)
Theorem safe_cancels_countdown (s : AppState) :
  timerOk s ->
  showSafetyCheck s = true ->
  1 <= countdown s <= 60 ->
  showSafetyCheck (fst (step s IAmSafe)) = false
  /\ intervals (fst (step s IAmSafe)) = []
  /\ (forall h, In h (intervals s) -> In (IntervalCleared h) (snd (step s IAmSafe)))
  /\ emergencyTriggered (fst (step s IAmSafe)) = emergencyTriggered s
  /\ emergencies (snd (step s IAmSafe)) = 0%nat
  /\ (forall tr, quiet (fst (step s IAmSafe)) tr = true ->
        emergencies (snd (run (fst (step s IAmSafe)) tr)) = 0%nat
        /\ showSafetyCheck (fst (run (fst (step s IAmSafe)) tr)) = false).
Proof.
  intros Hok Hshow _. rewrite (step_IAmSafe s Hshow).
  pose proof (clearTimerRef_fields (set_showSafetyCheck false s)) as F.
  simpl in F. destruct F as (F1 & _ & _ & F4 & _ & _ & _ & _ & F9 & _).
  pose proof (clearTimerRef_clears (set_showSafetyCheck false s) Hok) as Hc.
  assert (Hidle : idle (fst (handleIAmSafe s))) by (split; assumption).
  repeat split; try assumption.
  - intros h Hin. apply (clearTimerRef_reports (set_showSafetyCheck false s) h Hok Hin).
  - apply (run_idle tr _ Hidle H).
  - apply (run_idle tr _ Hidle H).
Qed.

(** The test button, twenty ticks, then "I AM SAFE" with 40 s left. *)
Lemma safe_cancels_countdown_witness :
  let s := fst (ticks 20 (fst (triggerSafetyCheck initialState))) in
  countdown s = 40
  /\ showSafetyCheck (fst (step s IAmSafe)) = false
  /\ intervals (fst (step s IAmSafe)) = []
  /\ emergencies (snd (run (fst (step s IAmSafe))
                        [Tick 1; Motion atRest 70000 70000; TriggerNow; Tick 1])) = 0%nat.
Proof.
  intros s.
  assert (Hok : timerOk s).
  { right. exists 1%positive. repeat split. }
  pose proof (safe_cancels_countdown s Hok eq_refl
                (conj (proj1 (Z.leb_le 1 40) eq_refl) (proj1 (Z.leb_le 40 60) eq_refl)))
    as (A & B & _ & _ & _ & C).
  split; [reflexivity | split; [exact A | split; [exact B |]]].
  apply (C [Tick 1; Motion atRest 70000 70000; TriggerNow; Tick 1] eq_refl).
Defined.

(** ** Re-entrancy *)

(** C2, as the code has it.  A jerk that arrives while the safety check is
    open restarts the countdown: the counter goes back to 60, the interval
    that was live is cancelled before the new one is created, and exactly
    one interval is live afterwards.  So there is never a second
    concurrent tick source, but the remaining time is not kept.  A sample
    that does not pass the guard leaves everything as it was. *)
Theorem second_jerk_restarts_countdown
    (s : AppState) (ev : DeviceMotionEvent) (now1 now2 : Z) :
  timerOk s ->
  showSafetyCheck s = true ->
  (startsCountdown s (Motion ev now1 now2) = true ->
     countdown (fst (step s (Motion ev now1 now2))) = 60
     /\ showSafetyCheck (fst (step s (Motion ev now1 now2))) = true
     /\ intervals (fst (step s (Motion ev now1 now2))) = [nextHandle s]
     /\ started (snd (step s (Motion ev now1 now2))) = 1%nat
     /\ (forall h, In h (intervals s) ->
           In (IntervalCleared h) (snd (step s (Motion ev now1 now2)))
           /\ ~ In h (intervals (fst (step s (Motion ev now1 now2)))))
     /\ timerOk (fst (step s (Motion ev now1 now2))))
  /\ (startsCountdown s (Motion ev now1 now2) = false ->
     step s (Motion ev now1 now2) = (s, [])).
Proof.
  intros Hok Hshow. split.
  - intros Hstart. apply startsCountdown_motion in Hstart as [Hmon Hcond].
    simpl. rewrite Hmon, (handleMotion_fires _ _ _ _ Hcond). cbn [fst snd].
    pose proof (triggerSafetyCheck_fields (set_lastJerk now2 s)) as F.
    simpl in F. destruct F as (F1 & F2 & _ & _ & _ & _ & _ & _ & _ & F10).
    destruct (triggerSafetyCheck_timer (set_lastJerk now2 s) Hok) as (T1 & T2 & T3).
    split; [exact F2|]. split; [exact F1|]. split; [exact T1|].
    split; [exact F10|]. split; [|exact T2].
    intros h Hin. destruct (T3 h Hin) as [A B]. split; [right; exact A|exact B].
  - intros Hno. simpl. destruct (isMonitoring s) eqn:Hmon; [|reflexivity].
    apply handleMotion_silent. intros Y.
    assert (startsCountdown s (Motion ev now1 now2) = true)
      by (apply startsCountdown_motion; auto).
    congruence.
Qed.

(** A countdown that has 50 s left is hit by a second shake. *)
Lemma second_jerk_restarts_countdown_witness :
  let s := fst (run initialState
     [StartProtect; Motion shake 10000 10000;
      Tick 1; Tick 1; Tick 1; Tick 1; Tick 1; Tick 1; Tick 1; Tick 1; Tick 1; Tick 1]) in
  countdown (fst (step s (Motion shake 20000 20000))) = 60
  /\ intervals (fst (step s (Motion shake 20000 20000))) = [2%positive]
  /\ step s (Motion shake 12000 12000) = (s, []).
Proof.
  intros s.
  pose proof (second_jerk_restarts_countdown s shake 20000 20000
                (reachable_timerOk _) eq_refl) as [H _].
  pose proof (second_jerk_restarts_countdown s shake 12000 12000
                (reachable_timerOk _) eq_refl) as [_ H'].
  destruct (H eq_refl) as (A & _ & B & _).
  split; [exact A | split; [exact B | exact (H' eq_refl)]].
Defined.

(** C2, as it is written, fails: with 50 s left on the clock, a second jerk
    (ten seconds after the first, so past the cooldown) changes the
    remaining time to 60 and starts an interval. *)
Lemma second_jerk_resets_remaining_time :
  let s := fst (run initialState
     [StartProtect; Motion shake 10000 10000;
      Tick 1; Tick 1; Tick 1; Tick 1; Tick 1; Tick 1; Tick 1; Tick 1; Tick 1; Tick 1]) in
  showSafetyCheck s = true
  /\ countdown s = 50
  /\ startsCountdown s (Motion shake 20000 20000) = true
  /\ countdown (fst (step s (Motion shake 20000 20000))) <> countdown s
  /\ started (snd (step s (Motion shake 20000 20000))) = 1%nat.
Proof.
  intros s. vm_compute. repeat split; discriminate.
Qed.

(** ** The leaked interval *)

(** C1 fails on "TRIGGER NOW".  [triggerEmergency] does not cancel the
    interval, so after the button the interval of the countdown is still
    live; it keeps taking seconds off the counter, which nobody sees any
    more, and when the counter reaches 1 it calls [triggerEmergency] a
    second time.  One countdown was started, two escalations were run. *)
Theorem trigger_now_leaves_interval_live :
  let pressed := run initialState [SimulateAccident; TriggerNow] in
  let later := run (fst pressed) (repeat (Tick 1) 60) in
  started (snd pressed ++ snd later) = 1%nat
  /\ showSafetyCheck (fst pressed) = false
  /\ intervals (fst pressed) = [1%positive]
  /\ emergencies (snd pressed) = 1%nat
  /\ quiet (fst pressed) (repeat (Tick 1) 60) = true
  /\ emergencies (snd later) = 1%nat
  /\ emergencies (snd pressed ++ snd later) = 2%nat.
Proof.
  vm_compute. repeat split.
Qed.

(** ** Printed numbers *)

(** What JavaScript prints for a few numbers: 12.9, 77.6, 0.1, 0.5, 100,
    -2.5, 10^21, 10^20, 2^-20, the largest finite value, and the special
    values. *)
Lemma toString_samples :
  map NumberToString.toString
      [ lat_12_9; lng_77_6; 0x1.999999999999ap-4%float; 0.5%float; 100%float;
        (-2.5)%float; 1e21%float; 1e20%float; 0x1p-20%float;
        0x1.fffffffffffffp+1023%float; infinity; nan; (-0)%float ]
  = [ "12.9"; "77.6"; "0.1"; "0.5"; "100"; "-2.5"; "1e+21";
      "100000000000000000000"; "9.5367431640625e-7";
      "1.7976931348623157e+308"; "Infinity"; "NaN"; "0" ]%string.
Proof. vm_compute. reflexivity. Qed.

(** ** Capitals *)

(** An ASCII name, a name with an accent, the division sign, and the three
    code units whose capitals are other text. *)
Lemma toUpperCase_samples :
  JsString.toUpperCase "Asha Rao" = "ASHA RAO"
  /\ JsString.toUpperCase (String (ascii_of_nat 233) "ric")
     = String (ascii_of_nat 201) "RIC"
  /\ JsString.toUpperCase (String (ascii_of_nat 247) EmptyString)
     = String (ascii_of_nat 247) EmptyString
  /\ JsString.upperFits (String (ascii_of_nat 233) "ric") = true
  /\ map (fun n => JsString.fitsUpper (ascii_of_nat n)) [181; 223; 255]%nat
     = [false; false; false].
Proof. repeat split. Qed.

(** ** Substrings *)

Lemma prefix_append (a b : string) : prefix a (a ++ b)%string = true.
Proof.
  induction a as [|c a IH]; simpl.
  - destruct b; reflexivity.
  - destruct (ascii_dec c c) as [_|N]; [exact IH|congruence].
Qed.

Lemma includes_prefix (a h : string) :
  prefix a h = true -> JsString.includes a h = true.
Proof. destruct h; simpl; intros ->; reflexivity. Qed.

Lemma includes_here (a b : string) : JsString.includes a (a ++ b)%string = true.
Proof. apply includes_prefix, prefix_append. Qed.

Lemma includes_self (a : string) : JsString.includes a a = true.
Proof.
  apply includes_prefix. induction a as [|c a IH]; simpl; [reflexivity|].
  destruct (ascii_dec c c) as [_|N]; [exact IH|congruence].
Qed.

Lemma includes_skip (a p h : string) :
  JsString.includes a h = true -> JsString.includes a (p ++ h)%string = true.
Proof.
  intros H. induction p as [|c p IH]; [exact H|].
  simpl. rewrite IH. apply orb_true_r.
Qed.

Lemma append_assoc (a b c : string) : ((a ++ b) ++ c = a ++ (b ++ c))%string.
Proof. induction a as [|x a IH]; simpl; [reflexivity|rewrite IH; reflexivity]. Qed.

(** The details of an incident name the user in capitals and end with the
    text of the lookup. *)
Lemma incidentDetails_includes (name : string) (lat lng : float) (hospitals : string) :
  JsString.includes (JsString.toUpperCase name ++ " IS IN EMERGENCY")%string
                    (incidentDetails name lat lng hospitals) = true
  /\ JsString.includes hospitals (incidentDetails name lat lng hospitals) = true.
Proof.
  unfold incidentDetails, emergencyMessage. split.
  - apply includes_skip, includes_skip, includes_skip.
    change " IS IN EMERGENCY. Location: "%string
      with (" IS IN EMERGENCY" ++ ". Location: ")%string.
    rewrite !append_assoc.
    rewrite <- (append_assoc (JsString.toUpperCase name) " IS IN EMERGENCY").
    apply includes_here.
  - apply includes_skip, includes_skip, includes_skip, includes_skip,
      includes_skip, includes_self.
Qed.

(** ** The escalation, end to end *)

(** C5, as the code has it.  At 12.9, 77.6, with a lookup that returns the
    text "3 hospitals found" and the link City Hospital (phone 123), and
    with the single contact Asha (9999999999), the workflow of a user
    called [name] (any name of code units below 256 whose capitals are
    such code units too) posts one body, and ends as the [fetch] that
    posts it does: it runs to its end exactly when that [fetch] is
    fulfilled.  When the server has answered it with success, the store,
    empty before, holds one row, with status "PENDING".  The details name the user, not the contact, in
    capitals, followed by " IS IN EMERGENCY", give the map link and end
    with the lookup's text.  Exactly one SMS payload is formatted,
    addressed to 9999999999, and exactly one ambulance payload, for City
    Hospital.  For the user Asha the details contain
    "ASHA IS IN EMERGENCY", and for a user whose name has an accented
    letter the capitals carry the accent; the title of the hospital is in
    the ambulance payload and not in the details. *)
Theorem escalation_end_to_end (name : string) (pos : option Coords)
    (post : IncidentBody -> option (Settled bool))
    (Hname : JsString.upperFits name = true) :
  let env := mkEnv pos (fun _ => Some (Fulfilled cityHospitalReply)) post in
  let here := Some (mkCoords lat_12_9 lng_77_6) in
  let details := incidentDetails name lat_12_9 lng_77_6 "3 hospitals found" in
  let body :=
    {| body_lat := lat_12_9; body_lng := lng_77_6; body_details := details |} in
  findNearbyHospitals (generateContent env) lat_12_9 lng_77_6
    = Some (Fulfilled cityHospitalResult)
  /\ snd (EscalationWorkflow name [asha] here env) = afterFetch (post body)
  /\ (snd (EscalationWorkflow name [asha] here env) = Completed
      <-> exists ok, post body = Some (Fulfilled ok))
  /\ posted (fst (EscalationWorkflow name [asha] here env)) = [body]
  /\ (post body = Some (Fulfilled true) ->
      store (fst (EscalationWorkflow name [asha] here env)) []
      = [ {| row_id := 1;
             row_location_lat := Some lat_12_9; row_location_lng := Some lng_77_6;
             row_status := "PENDING"; row_details := details |} ])
  /\ JsString.includes (JsString.toUpperCase name ++ " IS IN EMERGENCY")%string details = true
  /\ JsString.includes "https://www.google.com/maps?q=12.9,77.6" details = true
  /\ JsString.includes "3 hospitals found" details = true
  /\ smsSent (fst (EscalationWorkflow name [asha] here env))
     = [ {| sms_to := "9999999999";
            sms_message := emergencyMessage name lat_12_9 lng_77_6 |} ]
  /\ ambulancesRequested (fst (EscalationWorkflow name [asha] here env))
     = [ {| amb_hospital := "City Hospital"; amb_phone := "123";
            amb_message := ambulanceMessage name lat_12_9 lng_77_6 |} ]
  /\ JsString.includes "ASHA IS IN EMERGENCY"
       (incidentDetails "Asha" lat_12_9 lng_77_6 "3 hospitals found") = true
  /\ JsString.includes "City Hospital"
       (incidentDetails "Asha" lat_12_9 lng_77_6 "3 hospitals found") = false
  /\ JsString.includes (zoeUpper ++ " IS IN EMERGENCY")%string
       (incidentDetails zoe lat_12_9 lng_77_6 "3 hospitals found") = true.
Proof.
  intros env here details body.
  assert (L : locationLink lat_12_9 lng_77_6 = "https://www.google.com/maps?q=12.9,77.6")
    by (vm_compute; reflexivity).
  destruct (incidentDetails_includes name lat_12_9 lng_77_6 "3 hospitals found")
    as [I1 I2].
  assert (F : findNearbyHospitals (generateContent env) lat_12_9 lng_77_6
              = Some (Fulfilled cityHospitalResult)) by (vm_compute; reflexivity).
  assert (E : EscalationWorkflow name [asha] here env =
              ([ SetHospitalInfo "3 hospitals found";
                 SetHospitalLinks (result_links cityHospitalResult);
                 LogSms [ {| sms_to := "9999999999";
                             sms_message := emergencyMessage name lat_12_9 lng_77_6 |} ];
                 LogAmbulance
                   [ {| amb_hospital := "City Hospital"; amb_phone := "123";
                        amb_message := ambulanceMessage name lat_12_9 lng_77_6 |} ];
                 PostIncident body ],
               afterFetch (post body))).
  { unfold EscalationWorkflow, here. cbn [lat lng]. rewrite F. reflexivity. }
  rewrite E. cbn [fst snd posted smsSent ambulancesRequested store fold_left].
  split; [exact F|]. split; [reflexivity|]. split.
  { unfold afterFetch. destruct (post body) as [[ok|r]|].
    - split; [eauto|reflexivity].
    - split; [discriminate|intros [ok H]; discriminate].
    - split; [discriminate|intros [ok H]; discriminate]. }
  split; [reflexivity|]. split; [intros _; reflexivity|].
  split; [exact I1|]. split.
  { unfold details, incidentDetails, emergencyMessage. rewrite L.
    apply includes_skip, includes_skip, includes_skip.
    rewrite append_assoc. apply includes_skip.
    rewrite append_assoc. apply includes_skip, includes_here. }
  split; [exact I2|]. split; [reflexivity|]. split; [reflexivity|].
  split; [|split]; vm_compute; reflexivity.
Qed.

(** The user Asha, whose position the page already holds, and a server
    that answers the request. *)
Lemma escalation_end_to_end_witness :
  JsString.upperFits "Asha" = true
  /\ snd (EscalationWorkflow "Asha" [asha] (Some (mkCoords lat_12_9 lng_77_6))
            (mkEnv None (fun _ => Some (Fulfilled cityHospitalReply))
                   (fun _ => Some (Fulfilled true))))
     = Completed.
Proof.
  split; [reflexivity|].
  apply (proj2 (proj1 (proj2 (proj2
           (escalation_end_to_end "Asha" None (fun _ => Some (Fulfilled true))
              eq_refl))))).
  exists true. reflexivity.
Defined.

(** C5, as it is written, fails.  The lookup returns the text and the link
    of the scenario, the user is even called Asha, the server answers, and
    still the only posted details do not contain "City Hospital"; and when
    the user has another name than the contact, they do not contain
    "ASHA IS IN EMERGENCY" either. *)
Lemma details_lack_hospital_title :
  let env := mkEnv None (fun _ => Some (Fulfilled cityHospitalReply))
                   (fun _ => Some (Fulfilled true)) in
  let here := Some (mkCoords lat_12_9 lng_77_6) in
  findNearbyHospitals (generateContent env) lat_12_9 lng_77_6
    = Some (Fulfilled cityHospitalResult)
  /\ snd (EscalationWorkflow "Asha" [asha] here env) = Completed
  /\ map (fun b => JsString.includes "ASHA IS IN EMERGENCY" (body_details b))
         (posted (fst (EscalationWorkflow "Asha" [asha] here env))) = [true]
  /\ map (fun b => JsString.includes "City Hospital" (body_details b))
         (posted (fst (EscalationWorkflow "Asha" [asha] here env))) = [false]
  /\ map (fun b => JsString.includes "ASHA IS IN EMERGENCY" (body_details b))
         (posted (fst (EscalationWorkflow "Ravi" [asha] here env))) = [false]
  /\ map body_details (posted (fst (EscalationWorkflow "Asha" [asha] here env)))
     = [ "Emergency triggered for Asha. ASHA IS IN EMERGENCY. Location: https://www.google.com/maps?q=12.9,77.6. Nearby hospitals: 3 hospitals found" ].
Proof.
  vm_compute. repeat split.
Qed.

(** ** The lookup never raises *)



(** * Further properties of the emergency core *)

(** ** Invariants of the reachable states *)

(** X1.  In every state the application can reach, whatever was pressed,
    shaken or timed out before, at most one interval is live, and a live
    interval is the one [timerRef] holds: [triggerSafetyCheck] never leaves
    two tick sources running side by side. *)
Theorem never_two_tick_sources (tr : list Action) :
  (List.length (intervals (fst (run initialState tr))) <= 1)%nat
  /\ (forall h, In h (intervals (fst (run initialState tr))) ->
        timerRef (fst (run initialState tr)) = Some h).
Proof.
  destruct (run_timerOk tr initialState timerOk_initial) as [E|(h0 & R & E & _)];
    rewrite E; simpl.
  - split; [lia|]. intros h [].
  - split; [lia|]. intros h [<-|[]]. exact R.
Qed.

Lemma step_shown (s : AppState) (a : Action) :
  timerOk s ->
  (0 <= countdown s <= 60
   /\ (showSafetyCheck s = true ->
       1 <= countdown s /\ exists h, intervals s = [h] /\ timerRef s = Some h)) ->
  0 <= countdown (fst (step s a)) <= 60
  /\ (showSafetyCheck (fst (step s a)) = true ->
      1 <= countdown (fst (step s a))
      /\ exists h, intervals (fst (step s a)) = [h]
                   /\ timerRef (fst (step s a)) = Some h).
Proof.
  intros Hok [Hc Hopen].
  assert (Hstart : forall s0, timerOk s0 ->
            0 <= countdown (fst (triggerSafetyCheck s0)) <= 60
            /\ (showSafetyCheck (fst (triggerSafetyCheck s0)) = true ->
                1 <= countdown (fst (triggerSafetyCheck s0))
                /\ exists h, intervals (fst (triggerSafetyCheck s0)) = [h]
                             /\ timerRef (fst (triggerSafetyCheck s0)) = Some h)).
  { intros s0 Hok0. destruct (triggerSafetyCheck_counting s0 Hok0) as (_ & R & I & C).
    rewrite C. split; [lia|]. intros _. split; [lia|]. eauto. }
  destruct a as [|ev now1 now2| |h| | | | |]; simpl; try (split; assumption).
  - destruct (isMonitoring s); [|split; assumption].
    destruct (jerkCondition_dec s ev now1) as [Y|N].
    + rewrite (handleMotion_fires _ _ _ _ Y). cbn [fst].
      apply (Hstart (set_lastJerk now2 s)), Hok.
    + rewrite (handleMotion_silent _ _ _ _ N). split; assumption.
  - apply Hstart, Hok.
  - destruct (isLive h s); [|split; assumption].
    unfold intervalCallback. destruct (countdown s <=? 1) eqn:E.
    + destruct (timerRef s); simpl; (split; [lia|discriminate]).
    + apply Z.leb_gt in E. simpl. split; [lia|].
      intros Hs. destruct (Hopen Hs) as [_ Hh]. split; [lia|exact Hh].
  - destruct (showSafetyCheck s) eqn:Hs; [|simpl; rewrite Hs; split; [exact Hc|discriminate]].
    unfold handleIAmSafe.
    pose proof (clearTimerRef_fields (set_showSafetyCheck false s)) as F.
    simpl in F. destruct F as (F1 & F2 & _). rewrite F1, F2.
    split; [exact Hc|discriminate].
  - destruct (showSafetyCheck s) eqn:Hs; simpl; [split; [exact Hc|discriminate]|].
    split; [exact Hc|]. rewrite Hs. exact Hopen.
  - destruct (emergencyTriggered s); simpl; split; assumption.
Qed.

(** X2.  In every reachable state the counter lies between 0 and 60; and
    while the safety check is open it shows at least 1 and an interval is
    live to count it down, so an open safety check never shows 0 and never
    stands still for want of a tick source. *)
Theorem open_check_counts_down (tr : list Action) :
  0 <= countdown (fst (run initialState tr)) <= 60
  /\ (showSafetyCheck (fst (run initialState tr)) = true ->
      1 <= countdown (fst (run initialState tr))
      /\ exists h, intervals (fst (run initialState tr)) = [h]
                   /\ timerRef (fst (run initialState tr)) = Some h).
Proof.
  assert (G : forall tr s, timerOk s ->
            (0 <= countdown s <= 60
             /\ (showSafetyCheck s = true ->
                 1 <= countdown s
                 /\ exists h, intervals s = [h] /\ timerRef s = Some h)) ->
            0 <= countdown (fst (run s tr)) <= 60
            /\ (showSafetyCheck (fst (run s tr)) = true ->
                1 <= countdown (fst (run s tr))
                /\ exists h, intervals (fst (run s tr)) = [h]
                             /\ timerRef (fst (run s tr)) = Some h)).
  { clear tr. induction tr as [|a tr IH]; intros s Hok Hinv; [exact Hinv|].
    rewrite run_cons. cbn [fst].
    apply IH; [apply step_timerOk, Hok | apply step_shown; assumption]. }
  apply G; [exact timerOk_initial|].
  simpl. split; [lia|discriminate].
Qed.

(** ** Escalations against countdowns *)

Lemma armed_le_2 (s : AppState) : timerOk s -> (armed s <= 2)%nat.
Proof.
  unfold armed. intros [E|(h & _ & E & _)]; rewrite E;
    destruct (showSafetyCheck s); simpl; lia.
Qed.

Lemma triggerSafetyCheck_armed (s : AppState) :
  timerOk s -> armed (fst (triggerSafetyCheck s)) = 2%nat.
Proof.
  intros Hok. destruct (triggerSafetyCheck_counting s Hok) as (S & _ & I & _).
  unfold armed. rewrite S, I. reflexivity.
Qed.

Lemma clearTimerRef_length (s : AppState) :
  (List.length (intervals (fst (clearTimerRef s))) <= List.length (intervals s))%nat.
Proof.
  unfold clearTimerRef. destruct (timerRef s); simpl; [|lia].
  induction (intervals s) as [|x l IH]; simpl; [lia|].
  destruct (negb (x =? p)%positive); simpl; lia.
Qed.

(** One step: what was called plus what is still armed is paid for by what
    was armed before and two units per countdown started. *)
Lemma step_armed (s : AppState) (a : Action) :
  timerOk s ->
  (emergencies (snd (step s a)) + armed (fst (step s a))
   <= 2 * started (snd (step s a)) + armed s)%nat.
Proof.
  intros Hok.
  assert (Hstart : forall s0, timerOk s0 ->
            (emergencies (snd (triggerSafetyCheck s0)) + armed (fst (triggerSafetyCheck s0))
             <= 2 * started (snd (triggerSafetyCheck s0)) + armed s0)%nat).
  { intros s0 Hok0. rewrite (triggerSafetyCheck_armed s0 Hok0).
    pose proof (triggerSafetyCheck_fields s0) as F. simpl in F.
    destruct F as (_ & _ & _ & _ & _ & _ & _ & _ & F9 & F10).
    rewrite F9, F10. lia. }
  destruct a as [|ev now1 now2| |h| | | | |]; simpl; try (unfold armed; simpl; lia).
  - destruct (isMonitoring s); [|unfold armed; simpl; lia].
    destruct (jerkCondition_dec s ev now1) as [Y|N].
    + rewrite (handleMotion_fires _ _ _ _ Y). cbn [fst snd emergencies started].
      apply (Hstart (set_lastJerk now2 s) Hok).
    + rewrite (handleMotion_silent _ _ _ _ N). unfold armed. simpl. lia.
  - apply Hstart, Hok.
  - destruct (isLive h s) eqn:L; [|unfold armed; simpl; lia].
    unfold intervalCallback. destruct (countdown s <=? 1); [|simpl; unfold armed; simpl; lia].
    destruct Hok as [E|(h' & R & E & _)].
    + unfold isLive in L. rewrite E in L. discriminate.
    + rewrite R. unfold armed. simpl. rewrite E. simpl. rewrite Pos.eqb_refl. simpl.
      destruct (showSafetyCheck s); simpl; lia.
  - destruct (showSafetyCheck s) eqn:Hs; [|unfold armed; simpl; lia].
    unfold handleIAmSafe.
    pose proof (clearTimerRef_fields (set_showSafetyCheck false s)) as F.
    simpl in F. destruct F as (F1 & _ & _ & _ & _ & _ & _ & _ & F9 & F10).
    pose proof (clearTimerRef_length (set_showSafetyCheck false s)) as Hl.
    simpl in Hl. rewrite F9, F10. unfold armed. rewrite F1, Hs. simpl. lia.
  - destruct (showSafetyCheck s) eqn:Hs; unfold armed; simpl; rewrite ?Hs; lia.
  - destruct (emergencyTriggered s); simpl; unfold armed; simpl; lia.
Qed.

Lemma run_armed (tr : list Action) :
  forall s, timerOk s ->
    (emergencies (snd (run s tr)) + armed (fst (run s tr))
     <= 2 * started (snd (run s tr)) + armed s)%nat.
Proof.
  induction tr as [|a tr IH]; intros s Hok; [simpl; lia|].
  rewrite run_cons. cbn [fst snd]. rewrite emergencies_app, started_app.
  pose proof (step_armed s a Hok).
  pose proof (IH _ (step_timerOk s a Hok)). lia.
Qed.

(** Without the button: every call is paid for by a live interval. *)
Lemma step_live (s : AppState) (a : Action) :
  timerOk s -> isTriggerNow a = false ->
  (emergencies (snd (step s a)) + List.length (intervals (fst (step s a)))
   <= started (snd (step s a)) + List.length (intervals s))%nat.
Proof.
  intros Hok Hnot.
  assert (Hstart : forall s0, timerOk s0 ->
            (emergencies (snd (triggerSafetyCheck s0))
             + List.length (intervals (fst (triggerSafetyCheck s0)))
             <= started (snd (triggerSafetyCheck s0)) + List.length (intervals s0))%nat).
  { intros s0 Hok0. destruct (triggerSafetyCheck_counting s0 Hok0) as (_ & _ & I & _).
    pose proof (triggerSafetyCheck_fields s0) as F. simpl in F.
    destruct F as (_ & _ & _ & _ & _ & _ & _ & _ & F9 & F10).
    rewrite F9, F10, I. simpl. lia. }
  destruct a as [|ev now1 now2| |h| | | | |]; simpl; try lia; try discriminate.
  - destruct (isMonitoring s); [|simpl; lia].
    destruct (jerkCondition_dec s ev now1) as [Y|N].
    + rewrite (handleMotion_fires _ _ _ _ Y). cbn [fst snd emergencies started].
      apply (Hstart (set_lastJerk now2 s) Hok).
    + rewrite (handleMotion_silent _ _ _ _ N). simpl. lia.
  - apply Hstart, Hok.
  - destruct (isLive h s) eqn:L; [|simpl; lia].
    unfold intervalCallback. destruct (countdown s <=? 1); [|simpl; lia].
    destruct Hok as [E|(h' & R & E & _)].
    + unfold isLive in L. rewrite E in L. discriminate.
    + rewrite R. simpl. rewrite E. simpl. rewrite Pos.eqb_refl. simpl. lia.
  - destruct (showSafetyCheck s) eqn:Hs; [|simpl; lia].
    unfold handleIAmSafe.
    pose proof (clearTimerRef_fields (set_showSafetyCheck false s)) as F.
    simpl in F. destruct F as (_ & _ & _ & _ & _ & _ & _ & _ & F9 & F10).
    pose proof (clearTimerRef_length (set_showSafetyCheck false s)) as Hl.
    simpl in Hl. rewrite F9, F10. lia.
  - destruct (emergencyTriggered s); simpl; lia.
Qed.

Lemma run_live (tr : list Action) :
  forall s, timerOk s -> existsb isTriggerNow tr = false ->
    (emergencies (snd (run s tr)) + List.length (intervals (fst (run s tr)))
     <= started (snd (run s tr)) + List.length (intervals s))%nat.
Proof.
  induction tr as [|a tr IH]; intros s Hok Hnot; [simpl; lia|].
  simpl in Hnot. apply orb_false_iff in Hnot as [Ha Htr].
  rewrite run_cons. cbn [fst snd]. rewrite emergencies_app, started_app.
  pose proof (step_live s a Hok Ha).
  pose proof (IH _ (step_timerOk s a Hok) Htr). lia.
Qed.

(** X3.  Over any run of a fresh session, [triggerEmergency] is called at
    most twice per countdown started (once by "TRIGGER NOW", once more by
    the interval that button leaves behind); and in a run in which
    "TRIGGER NOW" is never pressed it is called at most once per countdown
    started. *)
Theorem escalations_bounded_by_countdowns (tr : list Action) :
  (emergencies (snd (run initialState tr))
   <= 2 * started (snd (run initialState tr)))%nat
  /\ (existsb isTriggerNow tr = false ->
      (emergencies (snd (run initialState tr))
       <= started (snd (run initialState tr)))%nat).
Proof.
  split.
  - pose proof (run_armed tr initialState timerOk_initial) as H.
    change (armed initialState) with 0%nat in H. lia.
  - intros Hnot. pose proof (run_live tr initialState timerOk_initial Hnot) as H.
    simpl in H. lia.
Qed.

(** ** Monitoring *)

Lemma step_monitoring (s : AppState) (a : Action) :
  (isMonitoring s = true -> isMonitoring (fst (step s a)) = true)
  /\ (isStartProtect a = false -> isMonitoring s = false ->
      isMonitoring (fst (step s a)) = false /\ jerkTimes (snd (step s a)) = []).
Proof.
  assert (Hstart : forall s0, isMonitoring (fst (triggerSafetyCheck s0)) = isMonitoring s0
                              /\ jerkTimes (snd (triggerSafetyCheck s0)) = []).
  { intros s0. pose proof (triggerSafetyCheck_fields s0) as F. simpl in F. tauto. }
  destruct a as [|ev now1 now2| |h| | | | |]; simpl.
  - split; [reflexivity|discriminate].
  - split.
    + intros Hm. rewrite Hm.
      destruct (jerkCondition_dec s ev now1) as [Y|N].
      * rewrite (handleMotion_fires _ _ _ _ Y). cbn [fst].
        rewrite (proj1 (Hstart (set_lastJerk now2 s))). exact Hm.
      * rewrite (handleMotion_silent _ _ _ _ N). exact Hm.
    + intros _ Hm. rewrite Hm. split; [exact Hm|reflexivity].
  - destruct (Hstart s) as [A B]. rewrite A, B. split; auto.
  - destruct (isLive h s); [|split; auto].
    pose proof (intervalCallback_fields s) as F. simpl in F.
    destruct F as (_ & F2 & _ & _ & F5 & _). rewrite F2, F5. split; auto.
  - destruct (showSafetyCheck s); [|split; auto].
    unfold handleIAmSafe.
    pose proof (clearTimerRef_fields (set_showSafetyCheck false s)) as F.
    simpl in F. destruct F as (_ & _ & _ & _ & F5 & _ & _ & F8 & _).
    rewrite F5, F8. split; auto.
  - destruct (showSafetyCheck s); simpl; split; auto.
  - destruct (emergencyTriggered s); simpl; split; auto.
  - split; auto.
  - split; auto.
Qed.

(** X4.  The motion sensor is listened to only after "START PROTECT": a run
    of a fresh session without it emits no jerk, however the device is
    shaken.  And monitoring, once on, is never switched off again by
    anything the application does. *)
Theorem monitoring_starts_once_and_stays (tr : list Action) :
  (existsb isStartProtect tr = false ->
     jerkTimes (snd (run initialState tr)) = []
     /\ isMonitoring (fst (run initialState tr)) = false)
  /\ (forall s, isMonitoring s = true -> isMonitoring (fst (run s tr)) = true).
Proof.
  split.
  - assert (G : forall tr s, existsb isStartProtect tr = false ->
                  isMonitoring s = false ->
                  jerkTimes (snd (run s tr)) = []
                  /\ isMonitoring (fst (run s tr)) = false).
    { clear tr. induction tr as [|a tr IH]; intros s Hno Hm; [split; [reflexivity|exact Hm]|].
      simpl in Hno. apply orb_false_iff in Hno as [Ha Htr].
      destruct (proj2 (step_monitoring s a) Ha Hm) as [Hm' Hj].
      destruct (IH _ Htr Hm') as [Hj' Hm''].
      rewrite run_cons. cbn [fst snd]. rewrite jerkTimes_app, Hj, Hj'.
      split; [reflexivity|exact Hm'']. }
    intros Hno. apply G; [exact Hno|reflexivity].
  - induction tr as [|a tr IH]; intros s Hm; [exact Hm|].
    rewrite run_cons. cbn [fst]. apply IH, step_monitoring, Hm.
Qed.

(** Shaking a phone on which protection was never started; and a session
    that stays monitored through a whole countdown. *)
Lemma monitoring_starts_once_and_stays_witness :
  jerkTimes (snd (run initialState
     [Motion shake 10000 10000; SimulateAccident; Motion shake 20000 20000])) = []
  /\ isMonitoring (fst (run (fst (step initialState StartProtect))
       [Motion shake 10000 10000; Tick 1; IAmSafe; Dismiss])) = true.
Proof.
  split.
  - apply (proj1 (monitoring_starts_once_and_stays
       [Motion shake 10000 10000; SimulateAccident; Motion shake 20000 20000]) eq_refl).
  - apply (proj2 (monitoring_starts_once_and_stays
       [Motion shake 10000 10000; Tick 1; IAmSafe; Dismiss])
       (fst (step initialState StartProtect)) eq_refl).
Defined.

(** * Further properties of the escalation *)

Lemma findNearbyHospitals_settles
    (gen : GenerateContentRequest -> option (Settled GenerateContentResponse))
    (la lo : float) :
  match gen (lookupRequest la lo) with
  | None => findNearbyHospitals gen la lo = None
  | Some _ => exists r, findNearbyHospitals gen la lo = Some (Fulfilled r)
  end.
Proof.
  unfold findNearbyHospitals.
  destruct (gen (lookupRequest la lo)) as [settled|]; [|reflexivity].
  destruct (lookupBody settled); eauto.
Qed.

(** The workflow, once it has its coordinates. *)
Lemma EscalationWorkflow_resolved (name : string) (cs : list Contact)
    (loc : option Coords) (env : Env) (c : Coords) :
  resolvedLocation loc env = Some c ->
  match generateContent env (lookupRequest (lat c) (lng c)) with
  | None =>
      findNearbyHospitals (generateContent env) (lat c) (lng c) = None
      /\ EscalationWorkflow name cs loc env = (beforeLookup loc c, Stalled)
  | Some _ =>
      exists r,
        findNearbyHospitals (generateContent env) (lat c) (lng c)
          = Some (Fulfilled r)
        /\ EscalationWorkflow name cs loc env =
             (beforeLookup loc c
              ++ [ SetHospitalInfo (result_text r);
                   SetHospitalLinks (result_links r);
                   LogSms (map (fun ct =>
                      {| sms_to := contact_phone ct;
                         sms_message := emergencyMessage name (lat c) (lng c) |}) cs);
                   LogAmbulance (map (fun h =>
                      {| amb_hospital := link_title h;
                         amb_phone := link_phone h;
                         amb_message := ambulanceMessage name (lat c) (lng c) |})
                      (result_links r));
                   PostIncident (bodyAt name c r) ],
              afterFetch (fetchIncidents env (bodyAt name c r)))
  end.
Proof.
  intros Hres.
  pose proof (findNearbyHospitals_settles (generateContent env) (lat c) (lng c)) as F.
  destruct (generateContent env (lookupRequest (lat c) (lng c))) as [settled|].
  - destruct F as [r Hr]. exists r. split; [exact Hr|].
    unfold EscalationWorkflow, beforeLookup, bodyAt.
    destruct loc as [c'|]; simpl in Hres.
    + injection Hres as ->. rewrite Hr. reflexivity.
    + rewrite Hres, Hr. reflexivity.
  - split; [exact F|].
    unfold EscalationWorkflow, beforeLookup. destruct loc as [c'|]; simpl in Hres.
    + injection Hres as ->. rewrite F. reflexivity.
    + rewrite Hres, F. reflexivity.
Qed.

Lemma EscalationWorkflow_unresolved (name : string) (cs : list Contact)
    (loc : option Coords) (env : Env) :
  resolvedLocation loc env = None ->
  EscalationWorkflow name cs loc env = ([], Stalled).
Proof.
  intros Hres. unfold EscalationWorkflow.
  destruct loc; simpl in Hres; [discriminate|]. rewrite Hres. reflexivity.
Qed.

Lemma posted_app (e1 e2 : list Effect) : posted (e1 ++ e2) = posted e1 ++ posted e2.
Proof.
  induction e1 as [|x e1 IH]; simpl; [reflexivity|].
  destruct x; simpl; rewrite IH; reflexivity.
Qed.

Lemma smsSent_app (e1 e2 : list Effect) : smsSent (e1 ++ e2) = smsSent e1 ++ smsSent e2.
Proof.
  induction e1 as [|x e1 IH]; simpl; [reflexivity|].
  destruct x; simpl; rewrite IH, ?app_assoc; reflexivity.
Qed.

Lemma ambulancesRequested_app (e1 e2 : list Effect) :
  ambulancesRequested (e1 ++ e2) = ambulancesRequested e1 ++ ambulancesRequested e2.
Proof.
  induction e1 as [|x e1 IH]; simpl; [reflexivity|].
  destruct x; simpl; rewrite IH, ?app_assoc; reflexivity.
Qed.

Lemma beforeLookup_silent (loc : option Coords) (c : Coords) :
  posted (beforeLookup loc c) = []
  /\ smsSent (beforeLookup loc c) = []
  /\ ambulancesRequested (beforeLookup loc c) = [].
Proof. destruct loc; repeat split. Qed.

(** X5.  How the workflow ends, case by case.  Without a location and
    without a position fix it stalls, having done nothing at all.  With
    coordinates but a call of the model that never settles it stalls too,
    before any message is formatted or any incident posted.  Once the call
    of the model settles, it formats one SMS payload per contact, in the
    order of the contact list, each addressed to that contact's phone, and
    one ambulance payload per link the lookup returned, in the order of
    the links; it posts exactly one incident, and ends as the [fetch] that
    posts it does: it stalls when that [fetch] never settles, throws its
    reason when it is rejected, and runs to its end when it is fulfilled.
    It throws in no other case. *)
Theorem workflow_outcomes (name : string) (cs : list Contact)
    (loc : option Coords) (env : Env) :
  let w := EscalationWorkflow name cs loc env in
  match resolvedLocation loc env with
  | None => w = ([], Stalled)
  | Some c =>
      match generateContent env (lookupRequest (lat c) (lng c)) with
      | None =>
          snd w = Stalled
          /\ posted (fst w) = [] /\ smsSent (fst w) = []
          /\ ambulancesRequested (fst w) = []
      | Some _ =>
          exists r,
            findNearbyHospitals (generateContent env) (lat c) (lng c)
              = Some (Fulfilled r)
            /\ posted (fst w) = [bodyAt name c r]
            /\ map sms_to (smsSent (fst w)) = map contact_phone cs
            /\ map amb_hospital (ambulancesRequested (fst w))
               = map link_title (result_links r)
            /\ map amb_phone (ambulancesRequested (fst w))
               = map link_phone (result_links r)
            /\ match fetchIncidents env (bodyAt name c r) with
               | None => snd w = Stalled
               | Some (Rejected reason) => snd w = Threw reason
               | Some (Fulfilled _) => snd w = Completed
               end
      end
  end
  /\ (forall reason,
        snd w = Threw reason <->
        exists b, posted (fst w) = [b]
                  /\ fetchIncidents env b = Some (Rejected reason))
  /\ (snd w = Completed <->
        exists b ok, posted (fst w) = [b]
                     /\ fetchIncidents env b = Some (Fulfilled ok)).
Proof.
  intros w. unfold w.
  destruct (resolvedLocation loc env) as [c|] eqn:Hres.
  - pose proof (EscalationWorkflow_resolved name cs loc env c Hres) as R.
    destruct (beforeLookup_silent loc c) as (P0 & S0 & A0).
    destruct (generateContent env (lookupRequest (lat c) (lng c))) as [settled|].
    + destruct R as (r & Hr & E). rewrite E. cbn [fst snd].
      rewrite posted_app, smsSent_app, ambulancesRequested_app, P0, S0, A0.
      cbn [app posted smsSent ambulancesRequested].
      rewrite !app_nil_r, !map_map. cbn [sms_to amb_hospital amb_phone].
      split; [|split].
      * exists r. split; [exact Hr|]. split; [reflexivity|].
        split; [reflexivity|]. split; [reflexivity|]. split; [reflexivity|].
        unfold afterFetch.
        destruct (fetchIncidents env (bodyAt name c r)) as [[ok|reason]|];
          reflexivity.
      * intros reason. unfold afterFetch. split.
        -- intros H. exists (bodyAt name c r). split; [reflexivity|].
           destruct (fetchIncidents env (bodyAt name c r)) as [[ok|reason']|];
             try discriminate.
           injection H as ->. reflexivity.
        -- intros (b & Hb & Hf). injection Hb as <-. rewrite Hf. reflexivity.
      * unfold afterFetch. split.
        -- intros H. exists (bodyAt name c r).
           destruct (fetchIncidents env (bodyAt name c r)) as [[ok|reason']|];
             try discriminate.
           exists ok. split; reflexivity.
        -- intros (b & ok & Hb & Hf). injection Hb as <-. rewrite Hf. reflexivity.
    + destruct R as (Hr & E). rewrite E. cbn [fst snd]. rewrite P0, S0, A0.
      split; [repeat split|]. split.
      * intros reason. split; [discriminate|]. intros (b & Hb & _). discriminate.
      * split; [discriminate|]. intros (b & ok & Hb & _). discriminate.
  - rewrite (EscalationWorkflow_unresolved name cs loc env Hres). cbn [fst snd posted].
    split; [reflexivity|]. split.
    + intros reason. split; [discriminate|]. intros (b & Hb & _). discriminate.
    + split; [discriminate|]. intros (b & ok & Hb & _). discriminate.
Qed.

(** X6.  A location already captured always wins over a fresh position:
    with a stored location the incident is posted for it, the lookup is
    made for it and the stored location is not overwritten, whatever the
    one-shot position would have been.  Only without a stored location is
    the position fetched; it is then stored first and used for the lookup
    and the incident.  (No incident is posted when the call of the model
    never settles.) *)
Theorem stored_location_wins (name : string) (cs : list Contact)
    (c got : Coords) (pos : option Coords)
    (gen : GenerateContentRequest -> option (Settled GenerateContentResponse))
    (post : IncidentBody -> option (Settled bool)) :
  (match gen (lookupRequest (lat c) (lng c)) with
   | Some _ =>
       map (fun b => (body_lat b, body_lng b))
         (posted (fst (EscalationWorkflow name cs (Some c) (mkEnv pos gen post))))
       = [(lat c, lng c)]
   | None =>
       posted (fst (EscalationWorkflow name cs (Some c) (mkEnv pos gen post))) = []
   end
   /\ existsb isSetLocation
        (fst (EscalationWorkflow name cs (Some c) (mkEnv pos gen post))) = false
   /\ EscalationWorkflow name cs (Some c) (mkEnv pos gen post)
      = EscalationWorkflow name cs (Some c) (mkEnv None gen post))
  /\ (match gen (lookupRequest (lat got) (lng got)) with
      | Some _ =>
          map (fun b => (body_lat b, body_lng b))
            (posted (fst (EscalationWorkflow name cs None
                            (mkEnv (Some got) gen post))))
          = [(lat got, lng got)]
      | None =>
          posted (fst (EscalationWorkflow name cs None
                         (mkEnv (Some got) gen post))) = []
      end
   /\ hd_error (fst (EscalationWorkflow name cs None (mkEnv (Some got) gen post)))
      = Some (SetLocation got)).
Proof.
  split.
  - pose proof (EscalationWorkflow_resolved name cs (Some c) (mkEnv pos gen post)
                  c eq_refl) as R.
    pose proof (EscalationWorkflow_resolved name cs (Some c) (mkEnv None gen post)
                  c eq_refl) as R'.
    cbn [generateContent fetchIncidents] in R, R'.
    destruct (gen (lookupRequest (lat c) (lng c))) as [settled|].
    + destruct R as (r & Hr & E). destruct R' as (r' & Hr' & E').
      rewrite Hr in Hr'. injection Hr' as <-.
      rewrite E, E'. cbn. repeat split.
    + destruct R as (Hr & E). destruct R' as (Hr' & E').
      rewrite E, E'. cbn. repeat split.
  - pose proof (EscalationWorkflow_resolved name cs None (mkEnv (Some got) gen post)
                  got eq_refl) as R.
    cbn [generateContent fetchIncidents] in R.
    destruct (gen (lookupRequest (lat got) (lng got))) as [settled|].
    + destruct R as (r & Hr & E). rewrite E. cbn. split; reflexivity.
    + destruct R as (Hr & E). rewrite E. cbn. split; reflexivity.
Qed.

(** ** What the lookup returns *)

Lemma filterChunks_sound (cs : list (option GroundingChunk)) :
  forall ms, filterChunks cs = Fulfilled ms ->
    Forall (fun m => exists u, maps_uri m = Some u /\ JsString.truthy u = true) ms
    /\ (List.length ms <= List.length cs)%nat.
Proof.
  induction cs as [|c cs IH]; intros ms H; simpl in H.
  - injection H as <-. split; [constructor|simpl; lia].
  - destruct c as [c|]; [|discriminate].
    destruct (filterChunks cs) as [rest|e]; [|discriminate].
    destruct (IH rest eq_refl) as [F L].
    destruct (maps c) as [m|].
    + destruct (maps_uri m) as [u|] eqn:U.
      * destruct (JsString.truthy u) eqn:T; injection H as <-.
        -- split; [constructor; [eauto|exact F]|simpl; lia].
        -- split; [exact F|simpl; lia].
      * injection H as <-. split; [exact F|simpl; lia].
    + injection H as <-. split; [exact F|simpl; lia].
Qed.

Lemma filterChunks_spec (cs : list (option GroundingChunk)) :
  if existsb isNullChunk cs
  then exists e, filterChunks cs = Rejected e
  else filterChunks cs = Fulfilled (keptMaps cs).
Proof.
  induction cs as [|c cs IH]; simpl; [reflexivity|].
  destruct c as [[[m|]]|]; simpl.
  - destruct (existsb isNullChunk cs).
    + destruct IH as [e ->]. eauto.
    + rewrite IH. unfold hasUri. destruct (maps_uri m) as [u|]; [|reflexivity].
      destruct (JsString.truthy u); reflexivity.
  - destruct (existsb isNullChunk cs).
    + destruct IH as [e ->]. eauto.
    + rewrite IH. reflexivity.
  - eauto.
Qed.

Lemma keptMaps_hasUri (cs : list (option GroundingChunk)) :
  Forall (fun m => hasUri m = true) (keptMaps cs).
Proof.
  induction cs as [|c cs IH]; simpl; [constructor|].
  destruct c as [[[m|]]|]; try exact IH.
  destruct (hasUri m) eqn:H; [constructor; assumption|exact IH].
Qed.

Lemma toLink_linkOf (m : MapsChunk) : hasUri m = true -> linkOf (toLink m) m.
Proof.
  unfold hasUri, linkOf, toLink. cbn [link_title link_uri link_phone].
  destruct (maps_uri m) as [u|]; [|discriminate]. intros _. repeat split.
Qed.

Lemma toLink_all (ms : list MapsChunk) :
  Forall (fun m => hasUri m = true) ms -> Forall2 linkOf (map toLink ms) ms.
Proof.
  induction 1 as [|m ms Hm K IH]; [constructor|].
  cbn [map]. constructor; [apply toLink_linkOf, Hm|exact IH].
Qed.

Lemma linkOf_truthy (l : HospitalLink) (m : MapsChunk) :
  hasUri m = true -> linkOf l m ->
  JsString.truthy (link_uri l) = true /\ JsString.truthy (link_phone l) = true.
Proof.
  unfold hasUri, linkOf. intros H (_ & U & P). rewrite U in H. split; [exact H|].
  rewrite P. destruct (maps_phone m) as [p|]; [|reflexivity].
  destruct (JsString.truthy p) eqn:T; [exact T|reflexivity].
Qed.

Lemma textOf_truthy (response : GenerateContentResponse) :
  JsString.truthy (textOf response) = true.
Proof.
  unfold textOf. destruct (text response) as [t|]; [|reflexivity].
  destruct (JsString.truthy t) eqn:T; [exact T|reflexivity].
Qed.

(** X7.  What [findNearbyHospitals] hands back, for every behaviour of the
    model.  While the call of the model is pending, so is the lookup.
    When the call is rejected or the reply holds a [null] chunk, the
    result is the fallback.  Otherwise the text is the text of the reply,
    or "No hospital information found." when the reply has none, and the
    links are, one for one and in the order of the reply, the chunks that
    carry a non-empty [maps.uri]: each link has the title and the [uri]
    of its chunk and the phone of its chunk, or "N/A" when the chunk has
    none.  So the text is never empty and every link has a non-empty
    [uri] and a non-empty [phone]. *)
Theorem lookup_result_well_formed
    (gen : GenerateContentRequest -> option (Settled GenerateContentResponse))
    (la lo : float) :
  match gen (lookupRequest la lo) with
  | None => findNearbyHospitals gen la lo = None
  | Some settled =>
      exists r,
        findNearbyHospitals gen la lo = Some (Fulfilled r)
        /\ JsString.truthy (result_text r) = true
        /\ Forall (fun l => JsString.truthy (link_uri l) = true
                            /\ JsString.truthy (link_phone l) = true)
                  (result_links r)
        /\ match settled with
           | Fulfilled response =>
               if existsb isNullChunk (chunksOf response)
               then r = lookupFallback
               else result_text r = textOf response
                    /\ Forall2 linkOf (result_links r)
                         (keptMaps (chunksOf response))
           | Rejected _ => r = lookupFallback
           end
  end.
Proof.
  unfold findNearbyHospitals.
  destruct (gen (lookupRequest la lo)) as [[response|e]|]; [| |reflexivity].
  - unfold lookupBody.
    pose proof (filterChunks_spec (chunksOf response)) as S.
    pose proof (keptMaps_hasUri (chunksOf response)) as K.
    destruct (existsb isNullChunk (chunksOf response)).
    + destruct S as [e ->]. exists lookupFallback.
      split; [reflexivity|]. split; [reflexivity|]. split; [constructor|reflexivity].
    + rewrite S. eexists. split; [reflexivity|].
      cbn [result_text result_links]. fold (textOf response).
      split; [apply textOf_truthy|].
      pose proof (toLink_all _ K) as L.
      split; [|split; [reflexivity|exact L]].
      apply Forall_map. eapply Forall_impl; [|exact K].
      intros m Hm. apply (linkOf_truthy (toLink m) m Hm), toLink_linkOf, Hm.
  - exists lookupFallback. split; [reflexivity|]. split; [reflexivity|].
    split; [constructor|reflexivity].
Qed.

(** ** The incident store *)






(** * The forms and the contact list *)

Lemma all_spec (p : ascii -> bool) (s : string) :
  JsRegExp.all p s = true <->
  forall c, In c (list_ascii_of_string s) -> p c = true.
Proof.
  induction s as [|x s IH]; simpl.
  - split; [intros _ c []|reflexivity].
  - rewrite andb_true_iff, IH. split.
    + intros [Hx Hs] c [<-|Hc]; auto.
    + intros H. split; [apply H; left; reflexivity|intros c Hc; apply H; right; exact Hc].
Qed.

Lemma testClassPlus_spec (cls : list JsRegExp.ClassItem) (s : string) :
  JsRegExp.testClassPlus cls s = true <->
  s <> EmptyString /\
  forall c, In c (list_ascii_of_string s) -> JsRegExp.inClass cls c = true.
Proof.
  destruct s as [|x s].
  - simpl. split; [discriminate|intros [H _]; congruence].
  - unfold JsRegExp.testClassPlus. rewrite all_spec.
    split; [intros H; split; [discriminate|exact H]|intros [_ H]; exact H].
Qed.

Lemma inClass_name (c : ascii) :
  JsRegExp.inClass nameRegExp c = (isLetter c || JsRegExp.isWhitespace c)%bool.
Proof.
  unfold JsRegExp.inClass, nameRegExp, isLetter, existsb, JsRegExp.inItem.
  change (nat_of_ascii "a") with 97%nat. change (nat_of_ascii "z") with 122%nat.
  change (nat_of_ascii "A") with 65%nat. change (nat_of_ascii "Z") with 90%nat.
  cbv zeta.
  destruct ((97 <=? nat_of_ascii c)%nat && (nat_of_ascii c <=? 122)%nat)%bool;
    destruct ((65 <=? nat_of_ascii c)%nat && (nat_of_ascii c <=? 90)%nat)%bool;
    destruct (JsRegExp.isWhitespace c); reflexivity.
Qed.


Lemma letter_not_whitespace (c : ascii) :
  isLetter c = true -> JsRegExp.isWhitespace c = false.
Proof.
  unfold isLetter, JsRegExp.isWhitespace. cbv zeta.
  generalize (nat_of_ascii c). intros n H.
  apply orb_true_iff in H.
  assert (R : (65 <= n <= 122)%nat).
  { destruct H as [H|H]; apply andb_true_iff in H as [A B];
      apply Nat.leb_le in A, B; lia. }
  apply orb_false_iff. split; [apply orb_false_iff; split|].
  - apply andb_false_iff. right. apply Nat.leb_gt. lia.
  - apply Nat.eqb_neq. lia.
  - apply Nat.eqb_neq. lia.
Qed.

Lemma isWhitespace_blank (c : ascii) :
  JsRegExp.isWhitespace c = true <-> blank c.
Proof.
  unfold JsRegExp.isWhitespace, blank. cbv zeta.
  rewrite !orb_true_iff, andb_true_iff, !Nat.leb_le, !Nat.eqb_eq. tauto.
Qed.


(** What the two patterns of the forms accept. *)
Lemma properName_spec (s : string) :
  JsRegExp.testClassPlus nameRegExp s = true <-> properName s.
Proof.
  rewrite testClassPlus_spec. unfold properName.
  split; intros [A B]; (split; [exact A|]); intros c Hc.
  - specialize (B c Hc). rewrite inClass_name in B.
    apply orb_true_iff in B as [B|B]; [left; exact B|right].
    apply isWhitespace_blank, B.
  - rewrite inClass_name. apply orb_true_iff.
    destruct (B c Hc) as [L|W]; [left; exact L|right].
    apply isWhitespace_blank, W.
Qed.



(** ** Keys of the contact list *)

Lemma contact_id_le_max (rows : list Contact) (r : Contact) :
  In r rows -> contact_id r <= fold_right (fun r acc => Z.max (contact_id r) acc) 0 rows.
Proof.
  induction rows as [|x rows IH]; intros Hin; [contradiction|].
  cbn [fold_right]. destruct Hin as [<-|Hin]; [lia|]. specialize (IH Hin). lia.
Qed.

Lemma nextContactId_above (t : ContactsTable) (r : Contact) :
  In r (table_rows t) -> contact_id r < nextContactId t.
Proof.
  intros Hin. unfold nextContactId. pose proof (contact_id_le_max _ _ Hin). lia.
Qed.

Lemma StronglySorted_snoc (l : list Z) (x : Z) :
  StronglySorted Z.lt l -> Forall (fun y => y < x) l -> StronglySorted Z.lt (l ++ [x]).
Proof.
  induction l as [|y l IH]; intros Hs Hf; simpl.
  - constructor; constructor.
  - inversion Hs as [|? ? Hs' Hy]; subst. inversion Hf as [|? ? Hyx Hf']; subst.
    constructor; [apply IH; assumption|].
    apply Forall_app. split; [exact Hy|constructor; [exact Hyx|constructor]].
Qed.

Lemma StronglySorted_filter (f : Z -> bool) (l : list Z) :
  StronglySorted Z.lt l -> StronglySorted Z.lt (filter f l).
Proof.
  induction l as [|y l IH]; intros Hs; simpl; [constructor|].
  inversion Hs as [|? ? Hs' Hy]; subst.
  destruct (f y); [|apply IH, Hs'].
  constructor; [apply IH, Hs'|].
  apply Forall_forall. intros z Hz. apply filter_In in Hz as [Hz _].
  rewrite Forall_forall in Hy. apply Hy, Hz.
Qed.

Lemma map_filter_id (id : Z) (rows : list Contact) :
  map contact_id (filter (fun r => negb (contact_id r =? id)) rows)
  = filter (fun i => negb (i =? id)) (map contact_id rows).
Proof.
  induction rows as [|r rows IH]; simpl; [reflexivity|].
  destruct (negb (contact_id r =? id)); simpl; rewrite IH; reflexivity.
Qed.

Lemma postContacts_ok (name phone email : string) (t : ContactsTable) :
  tableOk t ->
  tableOk (postContacts name phone email t)
  /\ table_seq t < table_seq (postContacts name phone email t).
Proof.
  intros [Hs Hf]. unfold postContacts, tableOk. cbn [table_rows table_seq].
  split; [split|unfold nextContactId; lia].
  - rewrite map_app. cbn [map contact_id]. apply StronglySorted_snoc; [exact Hs|].
    apply Forall_forall. intros i Hi. apply in_map_iff in Hi as (r & <- & Hin).
    apply nextContactId_above, Hin.
  - apply Forall_app. split.
    + eapply Forall_impl; [|exact Hf]. intros r Hr. cbv beta in *.
      unfold nextContactId. lia.
    + constructor; [cbn [contact_id]; lia|constructor].
Qed.

Lemma deleteContacts_ok (id : Z) (t : ContactsTable) :
  tableOk t -> tableOk (deleteContacts id t).
Proof.
  intros [Hs Hf]. unfold deleteContacts, tableOk. cbn [table_rows table_seq]. split.
  - rewrite map_filter_id. apply StronglySorted_filter, Hs.
  - apply Forall_forall. intros r Hr. apply filter_In in Hr as [Hr _].
    rewrite Forall_forall in Hf. apply Hf, Hr.
Qed.

Lemma contactStep_ok (st : AppState * ContactsTable) (op : ContactOp) :
  tableOk (snd st) ->
  tableOk (snd (contactStep st op))
  /\ table_seq (snd st) <= table_seq (snd (contactStep st op)).
Proof.
  destruct st as [s t]. cbn [snd]. intros Hok. destruct op as [name phone email|id].
  - unfold contactStep, addContact.
    destruct (JsRegExp.testClassPlus nameRegExp name); cbn [negb fst snd];
      [|split; [exact Hok|lia]].
    destruct (JsRegExp.testClassPlus phoneRegExp phone); cbn [negb fst snd];
      [|split; [exact Hok|lia]].
    destruct (postContacts_ok name phone email t Hok) as [A B]. split; [exact A|lia].
  - unfold contactStep, deleteContact. cbn [snd].
    split; [apply deleteContacts_ok, Hok|cbn; lia].
Qed.

Lemma contactRun_ok (ops : list ContactOp) :
  forall st, tableOk (snd st) ->
    tableOk (snd (contactRun ops st))
    /\ table_seq (snd st) <= table_seq (snd (contactRun ops st)).
Proof.
  induction ops as [|op ops IH]; intros st Hok; [split; [exact Hok|cbn; lia]|].
  unfold contactRun. cbn [fold_left]. fold (contactRun ops (contactStep st op)).
  destruct (contactStep_ok st op Hok) as [A B].
  destruct (IH _ A) as [C D]. split; [exact C|lia].
Qed.

Lemma StronglySorted_lt_NoDup (l : list Z) : StronglySorted Z.lt l -> NoDup l.
Proof.
  induction l as [|x l IH]; intros Hs; [constructor|].
  inversion Hs as [|? ? Hs' Hx]; subst. constructor; [|apply IH, Hs'].
  intros Hin. rewrite Forall_forall in Hx. specialize (Hx x Hin). lia.
Qed.

(** X10.  Whatever contacts are added and deleted, starting from an empty
    table, the ids in the table grow from one row to the next, so no two
    contacts share an id; and an id is never handed out twice: the id the
    next contact will get is larger than the id of every contact that was
    in the table at any earlier moment, deleted since or not. *)
Theorem contact_ids_never_reused (ops1 ops2 : list ContactOp) :
  let earlier := snd (contactRun ops1 (initialState, emptyContacts)) in
  let now := snd (contactRun (ops1 ++ ops2) (initialState, emptyContacts)) in
  StronglySorted Z.lt (map contact_id (table_rows now))
  /\ NoDup (map contact_id (table_rows now))
  /\ (forall r, In r (table_rows earlier) -> contact_id r < nextContactId now).
Proof.
  intros earlier now.
  assert (H0 : tableOk (snd (initialState, emptyContacts)))
    by (split; constructor).
  destruct (contactRun_ok ops1 _ H0) as [[S1 F1] _]. fold earlier in S1, F1.
  assert (E : now = snd (contactRun ops2 (contactRun ops1 (initialState, emptyContacts)))).
  { unfold now, contactRun. rewrite fold_left_app. reflexivity. }
  destruct (contactRun_ok ops2 (contactRun ops1 (initialState, emptyContacts)))
    as [[S2 F2] L]; [split; assumption|].
  rewrite <- E in S2, F2, L. fold earlier in L.
  split; [exact S2|]. split; [apply StronglySorted_lt_NoDup, S2|].
  intros r Hr. rewrite Forall_forall in F1. specialize (F1 r Hr).
  unfold nextContactId. lia.
Qed.

(** X11.  Deleting a contact removes the rows with that id and no other,
    and keeps the order of the rest; deleting an id that is not in the
    table changes nothing; and deleting the contact that was just added
    gives back the list as it was before, for any table. *)
Theorem delete_removes_exactly (id : Z) (t : ContactsTable)
    (name phone email : string) :
  (forall r, In r (getContacts (deleteContacts id t)) <->
             In r (getContacts t) /\ contact_id r <> id)
  /\ ((forall r, In r (getContacts t) -> contact_id r <> id) ->
      deleteContacts id t = t)
  /\ getContacts (deleteContacts (nextContactId t) (postContacts name phone email t))
     = getContacts t.
Proof.
  assert (K : forall rows i, (forall r : Contact, In r rows -> contact_id r <> i) ->
                filter (fun r => negb (contact_id r =? i)) rows = rows).
  { induction rows as [|x rows IH]; intros i H; simpl; [reflexivity|].
    destruct (Z.eqb_spec (contact_id x) i) as [E|E].
    - exfalso. apply (H x); [left; reflexivity|exact E].
    - simpl. rewrite IH; [reflexivity|]. intros r Hr. apply H. right. exact Hr. }
  split; [|split].
  - intros r. unfold getContacts, deleteContacts. cbn [table_rows].
    rewrite filter_In, negb_true_iff, Z.eqb_neq. reflexivity.
  - intros H. unfold deleteContacts. destruct t as [rows seq]. cbn [table_rows table_seq] in *.
    rewrite (K rows id H). reflexivity.
  - unfold getContacts, deleteContacts, postContacts. cbn [table_rows].
    rewrite filter_app. cbn [filter contact_id]. rewrite Z.eqb_refl. cbn [negb].
    rewrite app_nil_r. apply K. intros r Hr.
    pose proof (nextContactId_above t r Hr). lia.
Qed.

(** A table from which Asha is deleted. *)
Lemma delete_removes_exactly_witness :
  deleteContacts 7 (postContacts "Asha" "9999999999" "asha@example.org" emptyContacts)
  = postContacts "Asha" "9999999999" "asha@example.org" emptyContacts.
Proof.
  apply (proj1 (proj2 (delete_removes_exactly 7
           (postContacts "Asha" "9999999999" "asha@example.org" emptyContacts)
           EmptyString EmptyString EmptyString))).
  intros r [<-|[]]. vm_compute. discriminate.
Defined.

(** ** From the form to the alert *)




(** ** The name form *)

Lemma trimStart_truthy (s : string) :
  JsString.truthy (trimStart s) = true <->
  exists c, In c (list_ascii_of_string s) /\ JsRegExp.isWhitespace c = false.
Proof.
  induction s as [|x s IH]; simpl.
  - split; [discriminate|intros (c & [] & _)].
  - destruct (JsRegExp.isWhitespace x) eqn:W.
    + rewrite IH. split.
      * intros (c & Hc & Hw). exists c. auto.
      * intros (c & [<-|Hc] & Hw); [congruence|eauto].
    + simpl. split; [intros _; exists x; auto|reflexivity].
Qed.

Lemma trimStart_keeps (s : string) (c : ascii) :
  JsRegExp.isWhitespace c = false ->
  (In c (list_ascii_of_string (trimStart s)) <-> In c (list_ascii_of_string s)).
Proof.
  intros Hw. induction s as [|x s IH]; simpl; [reflexivity|].
  destruct (JsRegExp.isWhitespace x) eqn:W; [|reflexivity].
  rewrite IH. split; [auto|]. intros [<-|H]; [congruence|exact H].
Qed.

Lemma trimEnd_truthy (s : string) :
  JsString.truthy (trimEnd s) = true <->
  exists c, In c (list_ascii_of_string s) /\ JsRegExp.isWhitespace c = false.
Proof.
  induction s as [|x s IH]; simpl.
  - split; [discriminate|intros (c & [] & _)].
  - destruct (trimEnd s) as [|y t] eqn:T.
    + destruct (JsRegExp.isWhitespace x) eqn:W; simpl.
      * split; [discriminate|].
        intros (c & [<-|Hc] & Hw); [congruence|].
        apply (proj2 IH). eauto.
      * split; [intros _; exists x; auto|reflexivity].
    + simpl. split; [intros _|reflexivity].
      destruct (proj1 IH eq_refl) as (c & Hc & Hw). eauto.
Qed.

Lemma trim_truthy (s : string) :
  JsString.truthy (trim s) = true <->
  exists c, In c (list_ascii_of_string s) /\ JsRegExp.isWhitespace c = false.
Proof.
  unfold trim. rewrite trimEnd_truthy. split; intros (c & Hc & Hw); exists c;
    (split; [apply (trimStart_keeps s c Hw); exact Hc|exact Hw]).
Qed.

(** X13.  The "Identify Yourself" form lets the user on exactly when the
    name consists of letters and white space only and holds at least one
    letter; they then land on the contacts screen when the contact list is
    empty and on the dashboard when it is not.  In every other case the
    screen stays; the form alerts only for an empty name or a character
    that is neither a letter nor white space, so a name of blanks is turned
    down without a word.  White space is what [\s] matches and [trim]
    strips among the code units below 256: U+0009 to U+000D, the space and
    the no-break space. *)
Theorem name_form_moves_on (name : string) (cs : list Contact) (v : View) :
  let lettersAndBlanks :=
    forall c, In c (list_ascii_of_string name) ->
              isLetter c = true \/ blank c in
  let someLetter :=
    exists c, In c (list_ascii_of_string name) /\ isLetter c = true in
  (lettersAndBlanks /\ someLetter ->
     submitUserName name cs v
     = (match cs with [] => contacts_view | _ => main end, None))
  /\ (~ (lettersAndBlanks /\ someLetter) -> fst (submitUserName name cs v) = v)
  /\ (snd (submitUserName name cs v) = None <->
      name <> EmptyString /\ lettersAndBlanks).
Proof.
  intros lettersAndBlanks someLetter.
  assert (N : JsRegExp.testClassPlus nameRegExp name = true <->
              name <> EmptyString /\ lettersAndBlanks)
    by exact (properName_spec name).
  assert (T : lettersAndBlanks ->
              (JsString.truthy (trim name) = true <-> someLetter)).
  { intros L. rewrite trim_truthy. unfold someLetter.
    split; intros (c & Hc & H); exists c; (split; [exact Hc|]).
    - destruct (L c Hc) as [Hl|Hw]; [exact Hl|].
      apply isWhitespace_blank in Hw. congruence.
    - apply letter_not_whitespace, H. }
  unfold submitUserName.
  destruct (JsRegExp.testClassPlus nameRegExp name) eqn:TN; cbn [negb].
  - destruct (proj1 N eq_refl) as [Hne L].
    destruct (JsString.truthy (trim name)) eqn:TT; cbn [fst snd].
    + split; [reflexivity|]. split; [|split; [intros _; split; assumption|reflexivity]].
      intros Hnot. exfalso. apply Hnot. split; [exact L|apply (T L); reflexivity].
    + split; [|split; [reflexivity|split; [intros _; split; assumption|reflexivity]]].
      intros [_ S]. apply (T L) in S. discriminate.
  - cbn [fst snd]. split; [|split; [reflexivity|split; [discriminate|]]].
    + intros [L (c & Hc & Hl)]. exfalso.
      assert (Hne : name <> EmptyString) by (intros ->; destruct Hc).
      pose proof (proj2 N (conj Hne L)). discriminate.
    + intros H. pose proof (proj2 N H). discriminate.
Qed.

(** A proper name with nobody to notify yet, a name of blanks, and the
    same two with no-break spaces for blanks. *)
Lemma name_form_moves_on_witness :
  submitUserName "Asha Rao" [] user_login = (contacts_view, None)
  /\ fst (submitUserName "   " [asha] user_login) = user_login
  /\ submitUserName (String "A" (String nbsp "B")) [] user_login
     = (contacts_view, None)
  /\ submitUserName (String nbsp (String nbsp EmptyString)) [asha] user_login
     = (user_login, None).
Proof.
  split; [|split; [|split; reflexivity]].
  - apply (proj1 (name_form_moves_on "Asha Rao" [] user_login)). split.
    + intros c Hc. simpl in Hc.
      repeat (destruct Hc as [<-|Hc]; [vm_compute; auto|]). destruct Hc.
    + exists "A"%char. split; [left; reflexivity|reflexivity].
  - apply (proj1 (proj2 (name_form_moves_on "   " [asha] user_login))).
    intros [_ (c & Hc & Hl)]. simpl in Hc.
    repeat (destruct Hc as [<-|Hc]; [vm_compute in Hl; discriminate|]). destruct Hc.
Defined.

(** * The admin portal *)

(** ** The routes *)

Lemma findAdmin_map (upd : AdminRow -> AdminRow) (u : string) (db : list AdminRow) :
  (forall a, admin_username (upd a) = admin_username a) ->
  findAdmin u (map upd db) = option_map upd (findAdmin u db).
Proof.
  intros Hu. unfold findAdmin. induction db as [|a db IH]; simpl; [reflexivity|].
  rewrite Hu. destruct (String.eqb (admin_username a) u); [reflexivity|exact IH].
Qed.

Lemma findAdmin_some (u : string) (db : list AdminRow) (a : AdminRow) :
  findAdmin u db = Some a -> In a db /\ admin_username a = u.
Proof.
  unfold findAdmin. intros H. apply find_some in H as [Hin He].
  apply String.eqb_eq in He. auto.
Qed.

Lemma enroll_then_verify_aux (db : list AdminRow) (u f : string) (a : AdminRow) :
  findAdmin u db = Some a ->
  verifyFingerprint (enrollFingerprint db u f) u (FieldString f)
    = VerifyOk (tokenFor a)
  /\ admin_username a = u.
Proof.
  intros Hfind. destruct (findAdmin_some u db a Hfind) as [_ Hname].
  split; [|exact Hname].
  unfold verifyFingerprint, enrollFingerprint.
  rewrite findAdmin_map, Hfind.
  - cbn [option_map]. rewrite Hname, String.eqb_refl.
    cbn [admin_fingerprint_id set_fingerprint]. rewrite String.eqb_refl. reflexivity.
  - intros b. destruct (String.eqb (admin_username b) u); reflexivity.
Qed.

(** X14.  Enrolling asks for no credential, and what it stores is enough to
    get a token: for any admin in the table and any fingerprint id,
    enrolling that id for the admin's username and then verifying with the
    same id answers with a token for that admin.  Enrolling changes no
    password, no id and no row of another username. *)
Theorem enroll_then_verify (db : list AdminRow) (u f : string) (a : AdminRow) :
  findAdmin u db = Some a ->
  verifyFingerprint (enrollFingerprint db u f) u (FieldString f)
    = VerifyOk (tokenFor a)
  /\ token_username (tokenFor a) = u
  /\ map admin_password (enrollFingerprint db u f) = map admin_password db
  /\ map admin_id (enrollFingerprint db u f) = map admin_id db
  /\ (forall b, In b db -> admin_username b <> u -> In b (enrollFingerprint db u f)).
Proof.
  intros Hfind. destruct (enroll_then_verify_aux db u f a Hfind) as [Hv Hname].
  split; [exact Hv|split; [exact Hname|split; [|split]]].
  - unfold enrollFingerprint. rewrite map_map. apply map_ext.
    intros b. destruct (String.eqb (admin_username b) u); reflexivity.
  - unfold enrollFingerprint. rewrite map_map. apply map_ext.
    intros b. destruct (String.eqb (admin_username b) u); reflexivity.
  - intros b Hin Hne. unfold enrollFingerprint. apply in_map_iff. exists b.
    split; [|exact Hin].
    destruct (String.eqb_spec (admin_username b) u); [contradiction|reflexivity].
Qed.

(** An admin who never enrolled, and somebody who enrols for them. *)
Lemma enroll_then_verify_witness :
  verifyFingerprint
    [ {| admin_id := 1; admin_username := seededUsername;
         admin_password := "$2a$10$hash"; admin_fingerprint_id := None |} ]
    seededUsername (FieldString "anything") = VerifyUnauthorized
  /\ verifyFingerprint
       (enrollFingerprint
          [ {| admin_id := 1; admin_username := seededUsername;
               admin_password := "$2a$10$hash"; admin_fingerprint_id := None |} ]
          seededUsername "anything")
       seededUsername (FieldString "anything")
     = VerifyOk {| token_id := 1; token_username := seededUsername;
                   token_expiresIn := "1h" |}.
Proof.
  split; [reflexivity|].
  apply (proj1 (enroll_then_verify
           [ {| admin_id := 1; admin_username := seededUsername;
                admin_password := "$2a$10$hash"; admin_fingerprint_id := None |} ]
           seededUsername "anything"
           {| admin_id := 1; admin_username := seededUsername;
              admin_password := "$2a$10$hash"; admin_fingerprint_id := None |}
           eq_refl)).
Defined.

(** X15.  A token is issued exactly when the table holds an admin of that
    username and the submitted [fingerprintId] is strictly equal to what
    the row holds: the same string as the stored id, or [null] when the
    admin never enrolled, whose row holds [NULL].  The token then names
    that admin.  So an unknown username, a wrong id, a missing field and a
    value that is neither a string nor [null] are turned down, an admin
    who enrolled is not let in by [null], and an admin who never enrolled
    is let in by [null] and by nothing else. *)
Theorem verify_issues_token_iff (db : list AdminRow) (u : string)
    (fingerprintId : JsonField) (tok : Token) :
  (verifyFingerprint db u fingerprintId = VerifyOk tok <->
   exists a, findAdmin u db = Some a
             /\ match fingerprintId with
                | FieldString f => admin_fingerprint_id a = Some f
                | FieldNull => admin_fingerprint_id a = None
                | FieldAbsent | FieldOther => False
                end
             /\ tok = tokenFor a
             /\ token_username tok = u)
  /\ (forall a, findAdmin u db = Some a -> admin_fingerprint_id a = None ->
       verifyFingerprint db u FieldNull = VerifyOk (tokenFor a)
       /\ forall f, verifyFingerprint db u (FieldString f) = VerifyUnauthorized).
Proof.
  unfold verifyFingerprint. split; [split|].
  - destruct (findAdmin u db) as [a|] eqn:Hf; [|discriminate].
    destruct (findAdmin_some u db a Hf) as [_ Hn].
    destruct (admin_fingerprint_id a) as [g|] eqn:Hg;
      destruct fingerprintId as [| |f|]; try discriminate.
    + destruct (String.eqb_spec g f) as [->|]; [|discriminate].
      intros H. injection H as <-. exists a. auto.
    + intros H. injection H as <-. exists a. auto.
  - intros (a & -> & Hm & -> & _).
    destruct fingerprintId as [| |f|]; try contradiction; rewrite Hm.
    + reflexivity.
    + rewrite String.eqb_refl. reflexivity.
  - intros a -> ->. split; reflexivity.
Qed.

(** The seeded admin before any enrolment: no string gets a token, [null]
    does. *)
Lemma verify_issues_token_iff_witness :
  verifyFingerprint
    [ {| admin_id := 1; admin_username := seededUsername;
         admin_password := "$2a$10$hash"; admin_fingerprint_id := None |} ]
    seededUsername FieldNull
  = VerifyOk {| token_id := 1; token_username := seededUsername;
                token_expiresIn := "1h" |}
  /\ verifyFingerprint
       [ {| admin_id := 1; admin_username := seededUsername;
            admin_password := "$2a$10$hash"; admin_fingerprint_id := None |} ]
       seededUsername (FieldString "bio_fingerprint_Vigneshwaran v")
     = VerifyUnauthorized.
Proof.
  pose proof (proj2 (verify_issues_token_iff
           [ {| admin_id := 1; admin_username := seededUsername;
                admin_password := "$2a$10$hash"; admin_fingerprint_id := None |} ]
           seededUsername FieldNull
           {| token_id := 1; token_username := seededUsername;
              token_expiresIn := "1h" |})
           {| admin_id := 1; admin_username := seededUsername;
              admin_password := "$2a$10$hash"; admin_fingerprint_id := None |}
           eq_refl eq_refl) as H.
  split; [exact (proj1 H)|exact (proj2 H _)].
Defined.

Lemma findAdmin_snoc (u : string) (db : list AdminRow) (r : AdminRow) :
  findAdmin u db = None -> admin_username r = u ->
  findAdmin u (db ++ [r]) = Some r.
Proof.
  unfold findAdmin. intros Hnone Hr. induction db as [|x db IH]; simpl in *.
  - rewrite Hr, String.eqb_refl. reflexivity.
  - destruct (String.eqb (admin_username x) u); [discriminate|]. apply IH, Hnone.
Qed.

Section BcryptFacts.

Variable hashSync : string -> string -> nat -> string.
Variable compareSync : string -> string -> bool.

(** A password matches the hash made from it. *)
Hypothesis compare_hash :
  forall salt password, compareSync password (hashSync salt password 10) = true.

(** X16.  After the server has started, the seeded admin can log in with
    the seeded password, whatever the table held before: the password is
    reset at every start.  A fingerprint enrolled before the restart is
    kept, and the rows of other usernames are left as they were.  An
    unknown username is never let in, whatever the password. *)
Theorem seeded_admin_can_log_in (salt : string) (db : list AdminRow) :
  (exists tok,
     adminLogin compareSync (seedAdmin hashSync salt db) seededUsername seededPassword
     = LoginOk tok
         (match findAdmin seededUsername db with
          | Some a => match admin_fingerprint_id a with
                      | Some f => JsString.truthy f
                      | None => false
                      end
          | None => false
          end)
     /\ token_username tok = seededUsername)
  /\ (forall b, In b db -> admin_username b <> seededUsername ->
                In b (seedAdmin hashSync salt db))
  /\ (forall u p, findAdmin u (seedAdmin hashSync salt db) = None ->
                  adminLogin compareSync (seedAdmin hashSync salt db) u p
                  = LoginUnauthorized).
Proof.
  split; [|split].
  - unfold adminLogin, seedAdmin.
    destruct (findAdmin seededUsername db) as [a|] eqn:Hf.
    + rewrite findAdmin_map, Hf.
      * cbn [option_map]. destruct (findAdmin_some _ _ _ Hf) as [_ Hn].
        rewrite Hn, String.eqb_refl. cbn [admin_password set_password].
        rewrite compare_hash. eexists. split; [reflexivity|exact Hn].
      * intros b. destruct (String.eqb (admin_username b) seededUsername); reflexivity.
    + rewrite (findAdmin_snoc seededUsername db
                 {| admin_id := 1 + fold_right (fun a acc => Z.max (admin_id a) acc) 0 db;
                    admin_username := seededUsername;
                    admin_password := hashSync salt seededPassword 10;
                    admin_fingerprint_id := None |} Hf eq_refl).
      cbn [admin_password admin_fingerprint_id]. rewrite compare_hash.
      eexists. split; reflexivity.
  - intros b Hin Hne. unfold seedAdmin.
    destruct (findAdmin seededUsername db); [|apply in_or_app; left; exact Hin].
    apply in_map_iff. exists b. split; [|exact Hin].
    destruct (String.eqb_spec (admin_username b) seededUsername);
      [contradiction|reflexivity].
  - intros u p Hnone. unfold adminLogin. rewrite Hnone. reflexivity.
Qed.

End BcryptFacts.

(** The server starts on an empty table and on one that already holds the
    admin, with a fingerprint and an old password. *)
Lemma seeded_admin_can_log_in_witness :
  adminLogin toyCompare (seedAdmin toyHash "salt1" []) seededUsername seededPassword
  = LoginOk {| token_id := 1; token_username := seededUsername;
               token_expiresIn := "1h" |} false
  /\ exists tok,
       adminLogin toyCompare
         (seedAdmin toyHash "salt2"
            [ {| admin_id := 4; admin_username := seededUsername;
                 admin_password := "old"; admin_fingerprint_id := Some biometricId |} ])
         seededUsername seededPassword
       = LoginOk tok true.
Proof.
  assert (H : forall salt password,
              toyCompare password (toyHash salt password 10) = true).
  { intros salt password. unfold toyCompare, toyHash.
    apply includes_skip, includes_skip, includes_self. }
  split; [reflexivity|].
  destruct (seeded_admin_can_log_in toyHash toyCompare H "salt2"
              [ {| admin_id := 4; admin_username := seededUsername;
                   admin_password := "old"; admin_fingerprint_id := Some biometricId |} ])
    as ((tok & E & _) & _).
  exists tok. exact E.
Defined.

(** ** The portal *)

Ltac portal_cases :=
  repeat match goal with
         | |- context [match ?x with _ => _ end] => destruct x eqn:?; cbn in *
         end.

Lemma adminStepFn_dashboard (s : AdminState) (a : AdminAction) :
  (view s = admin -> isAdminAuthenticated s = true) ->
  view (adminStepFn s a) = admin -> isAdminAuthenticated (adminStepFn s a) = true.
Proof.
  intros Hinv. destruct s as [v au st he un code sc]. cbn in Hinv.
  destruct a; cbn;
    unfold handleAdminLogin, verifySecurityCode, handleBiometricLogin,
      enrollBiometric, scanCallback; cbn;
    portal_cases; subst; cbn;
    try discriminate; try reflexivity; try exact Hinv;
    try (intros; apply Hinv; reflexivity); intros; try congruence; auto;
    subst; cbn in *; discriminate.
Qed.

(** X17.  The incident dashboard is never on screen for somebody who is not
    authenticated: in every state the portal can reach, whatever is
    pressed, typed, answered or timed out, the view [admin] comes with
    [isAdminAuthenticated]. *)
Theorem dashboard_only_when_authenticated (tr : list AdminAction) :
  view (adminRun initialAdmin tr) = admin ->
  isAdminAuthenticated (adminRun initialAdmin tr) = true.
Proof.
  assert (G : forall tr s, (view s = admin -> isAdminAuthenticated s = true) ->
                view (adminRun s tr) = admin ->
                isAdminAuthenticated (adminRun s tr) = true).
  { clear tr. induction tr as [|a tr IH]; intros s Hinv; [exact Hinv|].
    unfold adminRun. cbn [fold_left]. fold (adminRun (adminStepFn s a) tr).
    apply IH, adminStepFn_dashboard, Hinv. }
  apply G. discriminate.
Qed.

(** The password, the master key, and the dashboard. *)
Lemma dashboard_only_when_authenticated_witness :
  view (adminRun initialAdmin
          [NavLock;
           SubmitLogin seededUsername
             (LoginOk {| token_id := 1; token_username := seededUsername;
                         token_expiresIn := "1h" |} true);
           TypeCode "1249"; Authorize]) = admin
  /\ isAdminAuthenticated (adminRun initialAdmin
          [NavLock;
           SubmitLogin seededUsername
             (LoginOk {| token_id := 1; token_username := seededUsername;
                         token_expiresIn := "1h" |} true);
           TypeCode "1249"; Authorize]) = true.
Proof.
  split; [reflexivity|].
  apply (dashboard_only_when_authenticated
          [NavLock;
           SubmitLogin seededUsername
             (LoginOk {| token_id := 1; token_username := seededUsername;
                         token_expiresIn := "1h" |} true);
           TypeCode "1249"; Authorize]).
  reflexivity.
Defined.

Ltac locked_out :=
  cbn; repeat split; auto; try discriminate; try congruence.

Lemma adminStepFn_lockedOut (s : AdminState) (a : AdminAction) :
  lockedOut s -> serverSaysYes s a = false -> lockedOut (adminStepFn s a).
Proof.
  intros (Hau & Hst & Hv1 & Hv2 & Hsc) Hno.
  destruct s as [v au st he un code sc]. cbn in *. subst au.
  unfold lockedOut.
  destruct a as [| |target|u res| |c| | |t| |t| |ok|]; cbn.
  - locked_out.
  - locked_out.
  - destruct target; locked_out.
  - destruct res; [discriminate|]. destruct v, st; locked_out.
  - destruct v, st; locked_out.
  - destruct v, st; locked_out.
  - destruct v, st; locked_out.
  - destruct v, st; locked_out.
  - destruct v, st; try (locked_out; fail).
    unfold handleBiometricLogin. cbn.
    destruct t, he; locked_out; rewrite forallb_app, Hsc; reflexivity.
  - destruct v; try (locked_out; fail). destruct (isScanning st); locked_out.
  - destruct v; locked_out.
  - destruct v; locked_out.
  - destruct sc as [|[u|u] rest]; cbn in *; [locked_out| |discriminate].
    destruct ok; [discriminate|]. locked_out.
  - destruct v; locked_out.
Qed.

(** X18.  Nobody gets in without the server saying yes: along any run of
    the portal in which no login request is answered with success and no
    fingerprint verification either, [isAdminAuthenticated] stays false and
    neither the dashboard nor the enrolment screen is ever shown, whatever
    is typed as master key. *)
Theorem no_entry_without_server (tr : list AdminAction) :
  unanswered initialAdmin tr = true ->
  isAdminAuthenticated (adminRun initialAdmin tr) = false
  /\ view (adminRun initialAdmin tr) <> admin
  /\ view (adminRun initialAdmin tr) <> enroll_fingerprint.
Proof.
  assert (G : forall tr s, lockedOut s -> unanswered s tr = true ->
                lockedOut (adminRun s tr)).
  { clear tr. induction tr as [|a tr IH]; intros s Hl Hu; [exact Hl|].
    cbn in Hu. apply andb_prop in Hu as [Ha Htr]. apply negb_true_iff in Ha.
    unfold adminRun. cbn [fold_left]. fold (adminRun (adminStepFn s a) tr).
    apply IH; [apply adminStepFn_lockedOut; assumption|exact Htr]. }
  intros Hu.
  destruct (G tr initialAdmin) as (A & _ & B & C & _); [|exact Hu|auto].
  unfold lockedOut. cbn. repeat split; discriminate.
Qed.

(** Wrong password, guessed master key, fingerprint and face turned down. *)
Lemma no_entry_without_server_witness :
  isAdminAuthenticated (adminRun initialAdmin
     [NavLock; SubmitLogin "root" LoginUnauthorized; TypeCode "1249"; Authorize;
      BiometricLogin Fingerprint; BiometricLogin FaceId; ScanFires false; Skip])
  = false.
Proof.
  apply (no_entry_without_server
     [NavLock; SubmitLogin "root" LoginUnauthorized; TypeCode "1249"; Authorize;
      BiometricLogin Fingerprint; BiometricLogin FaceId; ScanFires false; Skip]).
  reflexivity.
Defined.

(** X19.  Logging out does not lock the master-key step.  An admin who
    came in with the password and the master key and then logs out leaves
    the portal at step 2 with the key still typed: the lock button and
    "AUTHORIZE ACCESS" bring the dashboard back without any request to the
    server. *)
Theorem logout_keeps_master_key_step (s : AdminState) (u : string) (tok : Token) :
  view s = login ->
  adminStep s = Step1 ->
  let inside :=
    adminRun s [SubmitLogin u (LoginOk tok true); TypeCode "1249"; Authorize] in
  let out := adminRun inside [Logout] in
  let back := adminRun out [NavLock; Authorize] in
  (isAdminAuthenticated inside = true /\ view inside = admin)
  /\ (isAdminAuthenticated out = false /\ view out = landing
      /\ adminStep out = Step2 /\ securityCode out = "1249")
  /\ unanswered out [NavLock; Authorize] = true
  /\ (isAdminAuthenticated back = true /\ view back = admin).
Proof.
  intros Hv Hst. destruct s as [v au st he un code sc]. cbn in Hv, Hst. subst v st.
  cbn. repeat split.
Qed.

(** A fresh portal on which the lock was pressed. *)
Lemma logout_keeps_master_key_step_witness :
  isAdminAuthenticated
    (adminRun (adminRun initialAdmin [NavLock])
       [SubmitLogin seededUsername
          (LoginOk {| token_id := 1; token_username := seededUsername;
                      token_expiresIn := "1h" |} true);
        TypeCode "1249"; Authorize; Logout; NavLock; Authorize]) = true.
Proof.
  pose proof (logout_keeps_master_key_step (adminRun initialAdmin [NavLock])
                seededUsername
                {| token_id := 1; token_username := seededUsername;
                   token_expiresIn := "1h" |} eq_refl eq_refl)
    as (_ & _ & _ & H & _).
  exact H.
Defined.

(** X20.  Face ID on a fresh page sends the seeded username and the fixed
    biometric id, with no password and no master key.  On a server whose
    seeded admin has the fixed id enrolled, which is what the enrolment
    screen stores, the scan is answered with success and opens the
    dashboard; on a server that was only just seeded, whatever its table
    held for other users, it is turned down. *)
Theorem face_id_needs_only_an_enrolment
    (hashSync : string -> string -> nat -> string) (salt : string)
    (db : list AdminRow) :
  let waiting := adminRun initialAdmin [NavLock; BiometricLogin FaceId] in
  let enrolled := enrollFingerprint (seedAdmin hashSync salt db) seededUsername biometricId in
  scans waiting = [LoginScan seededUsername]
  /\ scanAnswer enrolled (LoginScan seededUsername) = true
  /\ isAdminAuthenticated
       (adminStepFn waiting (ScanFires (scanAnswer enrolled (LoginScan seededUsername))))
     = true
  /\ view (adminStepFn waiting (ScanFires (scanAnswer enrolled (LoginScan seededUsername))))
     = admin
  /\ (findAdmin seededUsername db = None ->
      scanAnswer (seedAdmin hashSync salt db) (LoginScan seededUsername) = false).
Proof.
  intros waiting enrolled.
  assert (Hseed : exists a, findAdmin seededUsername (seedAdmin hashSync salt db) = Some a).
  { unfold seedAdmin. destruct (findAdmin seededUsername db) as [a|] eqn:Hf.
    - rewrite findAdmin_map, Hf; [cbn; eauto|].
      intros b. destruct (String.eqb (admin_username b) seededUsername); reflexivity.
    - eexists. apply findAdmin_snoc; [exact Hf|reflexivity]. }
  destruct Hseed as [a Ha].
  assert (Hyes : scanAnswer enrolled (LoginScan seededUsername) = true).
  { unfold scanAnswer, enrolled.
    rewrite (proj1 (enroll_then_verify_aux _ _ _ _ Ha)). reflexivity. }
  split; [reflexivity|]. split; [exact Hyes|]. rewrite Hyes.
  split; [reflexivity|]. split; [reflexivity|].
  intros Hnone. unfold scanAnswer, verifyFingerprint, seedAdmin. rewrite Hnone.
  rewrite (findAdmin_snoc seededUsername db
             {| admin_id := 1 + fold_right (fun a acc => Z.max (admin_id a) acc) 0 db;
                admin_username := seededUsername;
                admin_password := hashSync salt seededPassword 10%nat;
                admin_fingerprint_id := None |} Hnone eq_refl).
  reflexivity.
Qed.

(** A fresh page, a freshly seeded server, and the same server after an
    enrolment. *)
Lemma face_id_needs_only_an_enrolment_witness :
  scanAnswer (seedAdmin toyHash "salt" []) (LoginScan seededUsername) = false
  /\ scanAnswer (enrollFingerprint (seedAdmin toyHash "salt" []) seededUsername biometricId)
       (LoginScan seededUsername) = true.
Proof.
  pose proof (face_id_needs_only_an_enrolment toyHash "salt" []) as (_ & Y & _ & _ & N).
  split; [exact (N eq_refl)|exact Y].
Defined.

(** * The stand-in for Google sign-in *)

Lemma splitFirst_append (name rest : string) :
  (forall c, In c (list_ascii_of_string name) -> c <> "@"%char) ->
  splitFirst "@" (name ++ String "@" rest) = name.
Proof.
  induction name as [|x name IH]; intros H; simpl.
  - reflexivity.
  - destruct (Ascii.eqb_spec x "@"%char) as [E|_].
    + exfalso. apply (H x); [left; reflexivity|exact E].
    + rewrite IH; [reflexivity|]. intros c Hc. apply H. right. exact Hc.
Qed.

Lemma splitFirst_no_sep (sep : ascii) (s : string) :
  ~ In sep (list_ascii_of_string (splitFirst sep s)).
Proof.
  induction s as [|x s IH]; simpl; [intros []|].
  destruct (Ascii.eqb_spec x sep) as [E|N]; simpl; [intros []|].
  intros [E|H]; [exact (N E)|exact (IH H)].
Qed.

(** X21.  The stand-in sign-in hands the application the part of the e-mail
    address before its first "@", and nothing checks that part: for any
    text [name] without "@" and any password of six characters or more,
    signing in as [name@gmail.com] makes [name] the user name, be it empty
    or full of digits, and the screen moves on as after the name form.  A
    name handed over never contains "@"; a password shorter than six
    characters or an address without "@gmail.com" hands over nothing. *)
Theorem google_name_is_local_part (name password email : string)
    (s : AppState) (v : View) :
  ((forall c, In c (list_ascii_of_string name) -> c <> "@"%char) ->
   (6 <= String.length password)%nat ->
   mockGoogleLogin (name ++ "@gmail.com") password = Some name
   /\ userName (fst (googleAuthSuccess name s v)) = name
   /\ snd (googleAuthSuccess name s v)
      = match contacts s with [] => contacts_view | _ => main end)
  /\ (forall n, mockGoogleLogin email password = Some n ->
        ~ In "@"%char (list_ascii_of_string n)
        /\ JsString.includes "@gmail.com" email = true
        /\ (6 <= String.length password)%nat)
  /\ ((String.length password < 6)%nat -> mockGoogleLogin email password = None).
Proof.
  split; [|split].
  - intros Hname Hlen. split; [|split; reflexivity].
    unfold mockGoogleLogin.
    rewrite (includes_skip "@gmail.com" name "@gmail.com" (includes_self _)).
    apply Nat.leb_le in Hlen. rewrite Hlen. cbn [andb].
    change "@gmail.com" with (String "@" "gmail.com") at 1.
    rewrite splitFirst_append; [reflexivity|exact Hname].
  - intros n. unfold mockGoogleLogin.
    destruct (JsString.includes "@gmail.com" email) eqn:I; [|discriminate].
    destruct (6 <=? String.length password)%nat eqn:L; [|discriminate].
    cbn [andb]. intros H. injection H as <-.
    split; [apply splitFirst_no_sep|]. split; [reflexivity|apply Nat.leb_le, L].
  - intros Hlt. unfold mockGoogleLogin.
    destruct (6 <=? String.length password)%nat eqn:L.
    + apply Nat.leb_le in L. lia.
    + rewrite andb_false_r. reflexivity.
Qed.

(** A local part the name form would refuse, and a short password. *)
Lemma google_name_is_local_part_witness :
  mockGoogleLogin "r2.d2@gmail.com" "secret" = Some "r2.d2"
  /\ JsRegExp.testClassPlus nameRegExp "r2.d2" = false
  /\ mockGoogleLogin "asha@gmail.com" "12345" = None.
Proof.
  pose proof (google_name_is_local_part "r2.d2" "secret" "asha@gmail.com"
                initialState landing) as (A & _ & _).
  pose proof (google_name_is_local_part "r2.d2" "12345" "asha@gmail.com"
                initialState landing) as (_ & _ & C).
  split; [|split; [reflexivity|]].
  - apply A; [|simpl; lia]. intros c Hc. simpl in Hc.
    repeat (destruct Hc as [<-|Hc]; [discriminate|]). destruct Hc.
  - apply C. simpl. lia.
Defined.
